(** * Universal Web Scraper: static pass, render pass and merge

    A shallow embedding of [src/scraper/models.py],
    [src/scraper/static_scraper.py], [src/scraper/js_scraper.py] and of the
    [scrape_url] handler of [src/main.py].

    Python strings are modelled as [string] (one [ascii] per character, so
    the characters of code below 256), Python lists as [list], the [section_counts] dict and the attribute
    dicts of the HTML parser as [gmap].  The HTML parser (selectolax), the
    URL library, the HTTP client (httpx) and the browser driver (Playwright)
    are collaborators of the program: they appear as type classes whose
    methods are the calls the source makes.  An exception is the [inl]
    branch of a sum and carries the text of [str(e)]. *)

From Stdlib Require Import Ascii.
From stdpp Require Import gmap strings list pretty.

(** ** Python string primitives *)

Module Py.

(** [len(s)] *)
Definition len (s : string) : nat := String.length s.

(** [bool(s)] for a string: the empty string is falsy. *)
Definition truthy (s : string) : bool :=
  match s with "" => false | _ => true end.

(** [s[:n]] *)
Fixpoint take (n : nat) (s : string) : string :=
  match n, s with
  | S n', String c s' => String c (take n' s')
  | _, _ => ""
  end.

(** [s.startswith(p)] *)
Fixpoint startswith (p s : string) : bool :=
  match p, s with
  | "", _ => true
  | String a p', String b s' => if decide (a = b) then startswith p' s' else false
  | String _ _, "" => false
  end.

(** [s.startswith((p1, p2, ...))] *)
Definition startswith_any (ps : list string) (s : string) : bool :=
  existsb (fun p => startswith p s) ps.

(** [x in s] for strings: [x] occurs in [s] as a contiguous substring. *)
Fixpoint contains (x s : string) : bool :=
  startswith x s ||
  match s with
  | "" => false
  | String _ s' => contains x s'
  end.

(** [any(x in s for x in xs)] *)
Definition any_in (xs : list string) (s : string) : bool :=
  existsb (fun x => contains x s) xs.

(** The lower-case form of a character: the capital letters A-Z, and the
    capital letters of codes 192-222 other than the multiplication sign
    (215). *)
Definition lower_ascii (c : ascii) : ascii :=
  let n := nat_of_ascii c in
  if ((65 <=? n) && (n <=? 90))
     || ((192 <=? n) && (n <=? 222) && negb (n =? 215))
  then ascii_of_nat (n + 32) else c.

(** The upper-case form of a character, where it is one character of the
    same range: the letters a-z, and the letters of codes 224-254 other
    than the division sign (247).  The three letters whose capital lies
    outside the range (codes 181, 223 and 255) are left as they are. *)
Definition upper_ascii (c : ascii) : ascii :=
  let n := nat_of_ascii c in
  if ((97 <=? n) && (n <=? 122))
     || ((224 <=? n) && (n <=? 254) && negb (n =? 247))
  then ascii_of_nat (n - 32) else c.

(** [s.lower()] *)
Fixpoint lower (s : string) : string :=
  match s with
  | "" => ""
  | String c s' => String (lower_ascii c) (lower s')
  end.

(** [s.capitalize()]: first character upper-cased, the rest lower-cased. *)
Definition capitalize (s : string) : string :=
  match s with
  | "" => ""
  | String c s' => String (upper_ascii c) (lower s')
  end.

(** The characters [str.split()] treats as separators, those for which
    [str.isspace()] holds: codes 9-13, 28-32, 133 (next line) and 160
    (no-break space). *)
Definition is_space (c : ascii) : bool :=
  let n := nat_of_ascii c in
  ((9 <=? n) && (n <=? 13)) || ((28 <=? n) && (n <=? 32))
  || (n =? 133) || (n =? 160).

(** [s.split()], with the word being read kept in [cur]. *)
Fixpoint split_go (cur : string) (s : string) : list string :=
  match s with
  | "" => if truthy cur then [cur] else []
  | String c s' =>
      if is_space c
      then (if truthy cur then [cur] else []) ++ split_go "" s'
      else split_go (cur +:+ String c "") s'
  end.

Definition split (s : string) : list string := split_go "" s.

(** [sep.join(parts)] *)
Fixpoint join (sep : string) (parts : list string) : string :=
  match parts with
  | [] => ""
  | [p] => p
  | p :: ps => p +:+ sep +:+ join sep ps
  end.

(** [str(n)] for a non-negative integer. *)
Definition str_of_nat (n : nat) : string := pretty n.

(** [d.get(k, dflt)] on a dict whose values may be [None]. *)
Definition get (d : gmap string (option string)) (k dflt : string)
  : option string :=
  match d !! k with
  | Some v => v
  | None => Some dflt
  end.

(** [bool(v)] for a value that is [None] or a string. *)
Definition truthy_opt (v : option string) : bool :=
  match v with
  | Some s => truthy s
  | None => false
  end.

(** [v or ""] for a value that is [None] or a string. *)
Definition or_empty (v : option string) : string :=
  match v with
  | Some s => s
  | None => ""
  end.

End Py.

(** ** Exceptions *)

(** A computation that may raise: [inl msg] is a raised exception whose
    [str(e)] is [msg]. *)
Definition Exc (A : Type) : Type := string + A.

Definition ok {A} (a : A) : Exc A := inr a.
Definition raise {A} (msg : string) : Exc A := inl msg.

Definition ebind {A B} (m : Exc A) (f : A → Exc B) : Exc B :=
  match m with
  | inl e => inl e
  | inr a => f a
  end.

Notation "x ←ₑ m ; k" := (ebind m (fun x => k))
  (at level 20, m at level 100, k at level 200, right associativity,
   format "x  ←ₑ  m ;  '/' k").

(** ** Data model ([models.py]) *)

Module LinkItem.
Record t := mk { text : string; href : string }.
End LinkItem.

Module ImageItem.
Record t := mk { src : string; alt : string }.
End ImageItem.

Module SectionContent.
Record t := mk {
  headings : list string;
  text : string;
  links : list LinkItem.t;
  images : list ImageItem.t;
  lists : list (list string);
  tables : list (list (list string))
}.
End SectionContent.

(** The class [Section] of [models.py]. *)
Module PageSection.
Record t := mk {
  id : string;
  type : string;
  label : string;
  sourceUrl : string;
  content : SectionContent.t;
  rawHtml : string;
  truncated : bool
}.
End PageSection.

Module MetaData.
Record t := mk {
  title : string;
  description : string;
  language : string;
  canonical : string
}.
(** [MetaData()] *)
Definition default : t := mk "" "" "" "".
End MetaData.

Module Interactions.
Record t := mk {
  clicks : list string;
  scrolls : nat;
  pages : list string
}.
End Interactions.

Module ErrorItem.
Record t := mk { message : string; phase : string }.
End ErrorItem.

Module ScrapeResult.
Record t := mk {
  url : string;
  scrapedAt : string;
  meta : MetaData.t;
  sections : list PageSection.t;
  interactions : Interactions.t;
  errors : list ErrorItem.t
}.
End ScrapeResult.

(** ** Collaborators of the static pass *)

(** The calls the source makes on selectolax's [HTMLParser] and [Node] and on
    [urllib.parse].  A parsed tree is its root node.  An attribute dict maps
    a name to [Some v], or to [None] for an attribute written without a
    value, as selectolax returns it.  [urljoin] and [urlparse] are taken on
    references they accept: the [ValueError] they raise on a malformed
    bracketed host is not modelled. *)
Class Dom := {
  Node : Type;
  (** [HTMLParser(markup)] *)
  HTMLParser : string → Exc Node;
  (** [node.css(selector)], matches in document order *)
  css : Node → string → list Node;
  (** [node.text(strip=True)] *)
  node_text : Node → string;
  (** [node.tag] *)
  node_tag : Node → option string;
  (** [node.html] *)
  node_html : Node → option string;
  (** [node.attributes] *)
  attributes : Node → gmap string (option string);
  (** The tree left by
      [try: for node in tree.css(selector): node.decompose()
       except Exception: pass]. *)
  decompose_matching : Node → string → Node;
  (** [urljoin(base, url)] *)
  urljoin : string → string → string;
  (** [urlparse(url).scheme] *)
  urlparse_scheme : string → string
}.

(** The outcome of the [try] block of [static_scrape] that performs the
    request: the response text, or the exception that left the block. *)
Inductive fetch_result :=
  | Response (text : string)
  | TimeoutException
  | HTTPStatusError (status_code : nat)
  | OtherException (msg : string).

Class Http := {
  (** [client.get(url)] followed by [raise_for_status()] and [.text], on a
      client with the given timeout in seconds, [follow_redirects] flag and
      User-Agent header *)
  client_get : nat → bool → string → string → fetch_result
}.

(** ** The static pass ([static_scraper.py]) *)

(** The double-quote character, and [s] between double quotes. *)
Definition dquote : string := String (ascii_of_nat 34) "".
Definition quoted (s : string) : string := dquote +:+ s +:+ dquote.

(** The attribute selector [[name op "value"]]. *)
Definition attr_sel (name op value : string) : string :=
  "[" +:+ name +:+ op +:+ quoted value +:+ "]".

Definition NOISE_SELECTORS : list string := [
  attr_sel "class" "*=" "cookie"; attr_sel "class" "*=" "Cookie";
  attr_sel "class" "*=" "consent"; attr_sel "class" "*=" "Consent";
  attr_sel "class" "*=" "modal"; attr_sel "class" "*=" "Modal";
  attr_sel "class" "*=" "popup"; attr_sel "class" "*=" "Popup";
  attr_sel "class" "*=" "newsletter"; attr_sel "class" "*=" "Newsletter";
  attr_sel "class" "*=" "banner"; attr_sel "id" "*=" "cookie";
  attr_sel "id" "*=" "consent"; attr_sel "id" "*=" "modal";
  attr_sel "id" "*=" "popup"; attr_sel "id" "*=" "newsletter";
  attr_sel "aria-label" "*=" "cookie"; attr_sel "aria-label" "*=" "consent";
  "script"; "style"; "noscript"; "iframe";
  "[hidden]"; attr_sel "aria-hidden" "=" "true"
].

Definition SECTION_SELECTORS : list string :=
  ["header"; "nav"; "main"; "section"; "article"; "aside"; "footer"].

Definition SECTION_TYPE_MAP : gmap string string :=
  list_to_map [
    ("header", "hero");
    ("nav", "nav");
    ("footer", "footer");
    ("main", "section");
    ("section", "section");
    ("article", "section");
    ("aside", "section")
  ].

Section StaticPass.
Context `{D : Dom}.

(** [node.css_first(selector)] *)
Definition css_first (n : Node) (selector : string) : option Node :=
  head (css n selector).

Definition extract_metadata (tree : Node) (url : string) : MetaData.t :=
  let title :=
    match css_first tree "title" with
    | Some title_tag => node_text title_tag
    | None => ""
    end in
  let title :=
    match css_first tree ("meta" +:+ attr_sel "property" "=" "og:title") with
    | Some og_title =>
        match attributes og_title !! "content" with
        | Some (Some c) => if Py.truthy c then c else title
        | _ => title
        end
    | None => title
    end in
  let description :=
    match css_first tree ("meta" +:+ attr_sel "name" "=" "description") with
    | Some desc_tag => Py.get (attributes desc_tag) "content" ""
    | None => Some ""
    end in
  let language :=
    match css_first tree "html" with
    | Some html_tag => Py.get (attributes html_tag) "lang" ""
    | None => Some ""
    end in
  let canonical :=
    match css_first tree ("link" +:+ attr_sel "rel" "=" "canonical") with
    | Some canonical_tag => Py.get (attributes canonical_tag) "href" ""
    | None => Some ""
    end in
  let canonical :=
    if Py.truthy_opt canonical
    then urljoin url (Py.or_empty canonical)
    else Py.or_empty canonical in
  MetaData.mk title (Py.or_empty description) (Py.or_empty language) canonical.

Definition make_absolute_url (href base_url : string) : string :=
  if negb (Py.truthy href) then ""
  else if Py.startswith_any ["http://"; "https://"; "//"] href then
    if Py.startswith "//" href
    then urlparse_scheme base_url +:+ ":" +:+ href
    else href
  else urljoin base_url href.

(** One iteration of the loop over [element.css('a[href]')]: the link it
    appends, if any. *)
Definition link_of (base_url : string) (a : Node) : option LinkItem.t :=
  let href := Py.get (attributes a) "href" "" in
  let link_text := node_text a in
  if Py.truthy_opt href
     && negb (Py.startswith_any ["#"; "javascript:"; "mailto:"; "tel:"]
                (Py.or_empty href))
  then Some (LinkItem.mk
               (if Py.truthy link_text then link_text else Py.or_empty href)
               (make_absolute_url (Py.or_empty href) base_url))
  else None.

(** One iteration of the loop over [element.css('img[src]')]. *)
Definition image_of (base_url : string) (img : Node) : option ImageItem.t :=
  let src := Py.get (attributes img) "src" "" in
  let alt := Py.get (attributes img) "alt" "" in
  if Py.truthy_opt src
  then Some (ImageItem.mk (make_absolute_url (Py.or_empty src) base_url)
                          (Py.or_empty alt))
  else None.

(** The non-empty stripped texts of the given nodes, in order. *)
Definition nonempty_texts (ns : list Node) : list string :=
  filter (fun s => Py.truthy s = true) (node_text <$> ns).

(** The [items] list built for one [ul] or [ol]. *)
Definition list_items (ul : Node) : list string :=
  nonempty_texts (css ul "li").

(** The [table_data] built for one [table]: the non-empty rows. *)
Definition table_rows (table : Node) : list (list string) :=
  filter (fun row => row ≠ [])
    ((fun tr => node_text <$> css tr "th, td") <$> css table "tr").

Definition extract_section_content (element : Node) (base_url : string)
  : SectionContent.t :=
  let headings := nonempty_texts (css element "h1, h2, h3, h4, h5, h6") in
  let text_parts := nonempty_texts (css element "p") in
  let text_parts :=
    match text_parts with
    | [] =>
        let all_text := node_text element in
        if Py.truthy all_text then [Py.take 500 all_text] else []
    | _ => text_parts
    end in
  let links := omap (link_of base_url) (css element "a[href]") in
  let images := omap (image_of base_url) (css element "img[src]") in
  let lists := filter (fun items => items ≠ []) (list_items <$> css element "ul, ol") in
  let tables := filter (fun rows => rows ≠ []) (table_rows <$> css element "table") in
  SectionContent.mk headings (Py.join " " text_parts)
    (take 50 links) (take 20 images) (take 10 lists) (take 5 tables).

(** [classes.lower()] where [classes] may be [None]: Python raises
    [AttributeError] on [None]. *)
Definition lower_attr (v : option string) : Exc string :=
  match v with
  | Some s => ok (Py.lower s)
  | None => raise "'NoneType' object has no attribute 'lower'"
  end.

Definition determine_section_type (element : Node) (content : SectionContent.t)
  : Exc string :=
  let tag_name :=
    match node_tag element with
    | Some t => if Py.truthy t then Py.lower t else ""
    | None => ""
    end in
  let base_type :=
    match SECTION_TYPE_MAP !! tag_name with
    | Some ty => ty
    | None => "unknown"
    end in
  classes ←ₑ lower_attr (Py.get (attributes element) "class" "");
  element_id ←ₑ lower_attr (Py.get (attributes element) "id" "");
  let combined := classes +:+ " " +:+ element_id in
  if Py.any_in ["hero"; "banner"; "jumbotron"; "splash"] combined then ok "hero"
  else if Py.any_in ["nav"; "menu"; "navigation"] combined then ok "nav"
  else if Py.any_in ["footer"; "foot"] combined then ok "footer"
  else if Py.any_in ["faq"; "accordion"; "question"] combined then ok "faq"
  else if Py.any_in ["price"; "pricing"; "plan"] combined then ok "pricing"
  else if Py.any_in ["grid"; "cards"; "gallery"] combined then ok "grid"
  else if Py.any_in ["list"; "items"] combined then ok "list"
  else ok base_type.

Definition generate_label (element : Node) (content : SectionContent.t)
  : string :=
  match SectionContent.headings content with
  | h :: _ => Py.take 50 h
  | [] =>
      let aria_label := Py.get (attributes element) "aria-label" "" in
      if Py.truthy_opt aria_label then Py.take 50 (Py.or_empty aria_label)
      else if Py.truthy (SectionContent.text content) then
        Py.join " " (take 7 (Py.split (SectionContent.text content)))
      else
        let tag :=
          match node_tag element with
          | Some t => if Py.truthy t then t else "Section"
          | None => "Section"
          end in
        Py.capitalize tag +:+ " Section"
  end.

Definition remove_noise (tree : Node) : Node :=
  foldl decompose_matching tree NOISE_SELECTORS.

(** A [for] loop whose body may raise: the state after the last element,
    or the first exception. *)
Fixpoint efold {A S : Type} (body : S → A → Exc S) (l : list A) (s : S)
  : Exc S :=
  match l with
  | [] => ok s
  | a :: l' => s' ←ₑ body s a; efold body l' s'
  end.

(** [not content.text and not content.headings and not content.links] *)
Definition content_is_empty (content : SectionContent.t) : bool :=
  negb (Py.truthy (SectionContent.text content))
  && bool_decide (SectionContent.headings content = [])
  && bool_decide (SectionContent.links content = []).

(** The body of the inner loop of [extract_sections], on the pair of
    [sections] and [section_counts]. *)
Definition scan_element (url : string)
    (st : list PageSection.t * gmap string nat) (element : Node)
  : Exc (list PageSection.t * gmap string nat) :=
  let '(sections, section_counts) := st in
  let content := extract_section_content element url in
  if content_is_empty content then ok (sections, section_counts)
  else
    section_type ←ₑ determine_section_type element content;
    let label := generate_label element content in
    let section_counts :=
      match section_counts !! section_type with
      | None => <[section_type := 0]> section_counts
      | Some _ => section_counts
      end in
    let section_id :=
      section_type +:+ "-" +:+ Py.str_of_nat (section_counts !!! section_type) in
    let section_counts :=
      <[section_type := section_counts !!! section_type + 1]> section_counts in
    let raw_html := Py.or_empty (node_html element) in
    let '(raw_html, truncated) :=
      if 1000 <? Py.len raw_html
      then (Py.take 1000 raw_html +:+ "...", true)
      else (raw_html, false) in
    ok (sections ++ [PageSection.mk section_id section_type label url
                       content raw_html truncated],
        section_counts).

(** The two nested loops over [SECTION_SELECTORS] and [tree.css(selector)]. *)
Definition primary_scan (tree : Node) (url : string)
  : Exc (list PageSection.t * gmap string nat) :=
  efold (fun st selector => efold (scan_element url) (css tree selector) st)
    SECTION_SELECTORS ([], ∅).

(** The section built from [body] when the loops found none. *)
Definition body_section (body : Node) (url : string) : PageSection.t :=
  let content := extract_section_content body url in
  let raw_html := Py.or_empty (node_html body) in
  let truncated := 1000 <? Py.len raw_html in
  let raw_html :=
    if truncated then Py.take 1000 raw_html +:+ "..." else raw_html in
  PageSection.mk "body-0" "unknown" (generate_label body content) url
    content raw_html truncated.

Definition extract_sections (tree : Node) (url : string)
  : Exc (list PageSection.t) :=
  st ←ₑ primary_scan tree url;
  match st.1 with
  | [] =>
      match css_first tree "body" with
      | Some body => ok [body_section body url]
      | None => ok []
      end
  | sections => ok sections
  end.

Definition get_text_content_length (tree : Node) : nat :=
  match css_first tree "body" with
  | Some body => Py.len (node_text body)
  | None => 0
  end.

Definition USER_AGENT : string :=
  "Mozilla/5.0 (Windows NT 10.0; Win64; x64) AppleWebKit/537.36 (KHTML, like Gecko) Chrome/120.0.0.0 Safari/537.36".

(** [all(not s.content.text for s in sections)] *)
Definition all_text_empty (sections : list PageSection.t) : bool :=
  forallb (fun s => negb (Py.truthy (SectionContent.text (PageSection.content s))))
    sections.

(** The body of the second [try] of [static_scrape]: metadata, sections
    and [needs_js], or the exception that left the block. *)
Definition static_parse (html_content url : string)
  : Exc (MetaData.t * list PageSection.t * bool) :=
  tree ←ₑ HTMLParser html_content;
  let tree := remove_noise tree in
  let text_length := get_text_content_length tree in
  let needs_js := if text_length <? 500 then true else false in
  let metadata := extract_metadata tree url in
  sections ←ₑ extract_sections tree url;
  let needs_js :=
    if bool_decide (sections = []) || all_text_empty sections
    then true else needs_js in
  ok (metadata, sections, needs_js).

Context `{H : Http}.

Definition static_scrape (url : string)
  : MetaData.t * list PageSection.t * list ErrorItem.t * string * bool :=
  match client_get 30 true USER_AGENT url with
  | TimeoutException =>
      (MetaData.default, [], [ErrorItem.mk "Request timeout" "fetch"], "", true)
  | HTTPStatusError status_code =>
      (MetaData.default, [],
       [ErrorItem.mk ("HTTP " +:+ Py.str_of_nat status_code) "fetch"], "", true)
  | OtherException msg =>
      (MetaData.default, [], [ErrorItem.mk msg "fetch"], "", true)
  | Response html_content =>
      match static_parse html_content url with
      | inr (metadata, sections, needs_js) =>
          (metadata, sections, [], html_content, needs_js)
      | inl msg =>
          (MetaData.default, [], [ErrorItem.mk msg "parse"], html_content, true)
      end
  end.

End StaticPass.

(** ** Collaborator of the render pass *)

(** The calls the source makes on Playwright.  [World] is the state of the
    driver, the browser and the page; each call may raise and may change it.
    The [wait_until] strategies, timeouts (milliseconds) and selectors are
    passed as the source passes them. *)
Class Browser := {
  World : Type;
  ElementHandle : Type;
  (** entering [async with async_playwright() as p] *)
  playwright_start : World → Exc unit * World;
  (** [p.chromium.launch(headless=True)] *)
  chromium_launch : World → Exc unit * World;
  (** [browser.new_context(viewport=..., user_agent=...)] *)
  browser_new_context : nat → nat → string → World → Exc unit * World;
  (** [context.new_page()] *)
  context_new_page : World → Exc unit * World;
  (** [page.goto(url, wait_until=..., timeout=...)] *)
  page_goto : string → string → N → World → Exc unit * World;
  (** [page.wait_for_timeout(ms)] *)
  page_wait_for_timeout : N → World → Exc unit * World;
  (** [page.query_selector_all(selector)] *)
  page_query_selector_all : string → World → Exc (list ElementHandle) * World;
  (** [page.query_selector(selector)] *)
  page_query_selector : string → World → Exc (option ElementHandle) * World;
  (** [handle.is_visible()] *)
  handle_is_visible : ElementHandle → World → Exc bool * World;
  (** [handle.click()] *)
  handle_click : ElementHandle → World → Exc unit * World;
  (** [handle.get_attribute(name)] *)
  handle_get_attribute : ElementHandle → string → World → Exc (option string) * World;
  (** [page.evaluate(script)] *)
  page_evaluate : string → World → Exc unit * World;
  (** [page.wait_for_load_state(state, timeout=...)] *)
  page_wait_for_load_state : string → N → World → Exc unit * World;
  (** [page.url] *)
  page_url : World → string;
  (** [page.content()] *)
  page_content : World → Exc string * World;
  (** [context.close()] *)
  context_close : World → Exc unit * World
}.

(** ** The render pass ([js_scraper.py]) *)

Definition TAB_SELECTORS : list string := [
  attr_sel "role" "=" "tab";
  "button[aria-controls]";
  ".tab";
  attr_sel "data-toggle" "=" "tab";
  ".nav-link" +:+ attr_sel "data-bs-toggle" "=" "tab"
].

Definition has_text (tag text : string) : string :=
  tag +:+ ":has-text(" +:+ quoted text +:+ ")".

Definition LOAD_MORE_SELECTORS : list string := [
  has_text "button" "Load more";
  has_text "button" "Show more";
  has_text "button" "See more";
  has_text "button" "View more";
  attr_sel "class" "*=" "load-more";
  attr_sel "class" "*=" "loadmore";
  attr_sel "class" "*=" "show-more";
  attr_sel "data-action" "=" "load-more"
].

Definition PAGINATION_SELECTORS : list string := [
  has_text "a" "Next";
  has_text "a" "next";
  attr_sel "rel" "=" "next";
  ".pagination a:last-child";
  attr_sel "aria-label" "=" "Next page";
  ".next > a";
  "a.next"
].

(** *** The merge of rendered sections into the existing ones *)

(** [len(sec.content.text)] *)
Definition text_len (s : PageSection.t) : nat :=
  Py.len (SectionContent.text (PageSection.content s)).

(** The inner loop [for i, existing in enumerate(sections)]: the first
    entry with the id of [sec] is replaced by [sec] if [sec] has the longer
    text, and the loop stops there. *)
Fixpoint replace_if_longer (sec : PageSection.t) (sections : list PageSection.t)
  : list PageSection.t :=
  match sections with
  | [] => []
  | existing :: rest =>
      if decide (PageSection.id existing = PageSection.id sec) then
        if text_len existing <? text_len sec
        then sec :: rest
        else existing :: rest
      else existing :: replace_if_longer sec rest
  end.

(** The body of the loop [for sec in js_sections]. *)
Definition merge_one (existing_ids : gset string)
    (sections : list PageSection.t) (sec : PageSection.t)
  : list PageSection.t :=
  if decide (PageSection.id sec ∈ existing_ids)
  then replace_if_longer sec sections
  else sections ++ [sec].

(** The block under [if js_sections:]. *)
Definition merge_sections (sections js_sections : list PageSection.t)
  : list PageSection.t :=
  let existing_ids : gset string := list_to_set (PageSection.id <$> sections) in
  foldl (merge_one existing_ids) sections js_sections.

(** *** State and exceptions of [js_scrape] *)

Section RenderPass.
Context `{D : Dom} `{B : Browser}.

(** The mutable state of one call of [js_scrape]: the browser and the
    local variables that its helpers and handlers update. *)
Record JsState := mkJs {
  world : World;
  metadata : MetaData.t;
  sections : list PageSection.t;
  interactions : Interactions.t;
  errors : list ErrorItem.t
}.

(** A statement: it ends normally with a value or raises, and leaves a
    state either way. *)
Definition M (A : Type) : Type := JsState → Exc A * JsState.

Definition retM {A} (a : A) : M A := fun s => (ok a, s).

Definition bindM {A C} (m : M A) (k : A → M C) : M C :=
  fun s =>
    match m s with
    | (inr a, s') => k a s'
    | (inl e, s') => (inl e, s')
    end.

(** [try: m except Exception as e: handler(e)] *)
Definition try_except {A} (m : M A) (handler : string → M A) : M A :=
  fun s =>
    match m s with
    | (inl e, s') => handler e s'
    | r => r
    end.

(** A call on the browser. *)
Definition call {A} (op : World → Exc A * World) : M A :=
  fun s =>
    let '(r, w) := op (world s) in
    (r, mkJs w (metadata s) (sections s) (interactions s) (errors s)).

(** A value computed by code that may raise. *)
Definition lift {A} (r : Exc A) : M A := fun s => (r, s).

(** [errors.append(ErrorItem(message=..., phase=...))] *)
Definition append_error (message phase : string) : M unit :=
  fun s =>
    (ok (), mkJs (world s) (metadata s) (sections s) (interactions s)
              (errors s ++ [ErrorItem.mk message phase])).

(** [interactions.clicks.append(selector)] *)
Definition append_click (selector : string) : M unit :=
  fun s =>
    let i := interactions s in
    (ok (), mkJs (world s) (metadata s) (sections s)
              (Interactions.mk (Interactions.clicks i ++ [selector])
                 (Interactions.scrolls i) (Interactions.pages i))
              (errors s)).

(** [interactions.scrolls += 1] *)
Definition incr_scrolls : M unit :=
  fun s =>
    let i := interactions s in
    (ok (), mkJs (world s) (metadata s) (sections s)
              (Interactions.mk (Interactions.clicks i)
                 (Interactions.scrolls i + 1) (Interactions.pages i))
              (errors s)).

(** [interactions.pages.append(url)] *)
Definition append_page (url : string) : M unit :=
  fun s =>
    let i := interactions s in
    (ok (), mkJs (world s) (metadata s) (sections s)
              (Interactions.mk (Interactions.clicks i)
                 (Interactions.scrolls i) (Interactions.pages i ++ [url]))
              (errors s)).

Definition set_metadata (m : MetaData.t) : M unit :=
  fun s => (ok (), mkJs (world s) m (sections s) (interactions s) (errors s)).

Definition set_sections (l : list PageSection.t) : M unit :=
  fun s => (ok (), mkJs (world s) (metadata s) l (interactions s) (errors s)).

Definition get_sections : M (list PageSection.t) :=
  fun s => (ok (sections s), s).

Definition get_url : M string :=
  fun s => (ok (page_url (world s)), s).

End RenderPass.

Notation "x ←ₘ m ; k" := (bindM m (fun x => k))
  (at level 20, m at level 100, k at level 200, right associativity,
   format "x  ←ₘ  m ;  '/' k").
Notation "m ;ₘ k" := (bindM m (fun _ => k))
  (at level 100, k at level 200, right associativity,
   format "m  ;ₘ  '/' k").

Section RenderSteps.
Context `{D : Dom} `{B : Browser}.

(** [for x in l: body(x)] *)
Fixpoint for_each {A} (l : list A) (body : A → M unit) : M unit :=
  match l with
  | [] => retM ()
  | x :: l' => body x ;ₘ for_each l' body
  end.

(** [for _ in range(n): body] *)
Fixpoint for_range (n : nat) (body : M unit) : M unit :=
  match n with
  | 0 => retM ()
  | S n' => body ;ₘ for_range n' body
  end.

(** [for _ in range(n): body], where the body answers whether the loop
    goes on ([false] is a [break]). *)
Fixpoint for_range_break (n : nat) (body : M bool) : M unit :=
  match n with
  | 0 => retM ()
  | S n' =>
      go_on ←ₘ body;
      if go_on : bool then for_range_break n' body else retM ()
  end.

Definition click_tabs : M unit :=
  for_each TAB_SELECTORS (fun selector =>
    try_except
      (tabs ←ₘ call (page_query_selector_all selector);
       for_each (take 3 tabs) (fun tab =>
         try_except
           (visible ←ₘ call (handle_is_visible tab);
            if visible : bool then
              call (handle_click tab) ;ₘ
              append_click selector ;ₘ
              call (page_wait_for_timeout 500%N)
            else retM ())
           (fun _ => retM ())))
      (fun e =>
         append_error ("Tab click error: " +:+ Py.take 50 e) "interaction")).

Definition click_load_more : M unit :=
  for_each LOAD_MORE_SELECTORS (fun selector =>
    try_except
      (for_range_break 3
         (try_except
            (button ←ₘ call (page_query_selector selector);
             match button with
             | Some b =>
                 visible ←ₘ call (handle_is_visible b);
                 if visible : bool then
                   call (handle_click b) ;ₘ
                   append_click selector ;ₘ
                   call (page_wait_for_timeout 1000%N) ;ₘ
                   retM true
                 else retM false
             | None => retM false
             end)
            (fun _ => retM false)))
      (fun e =>
         append_error ("Load more error: " +:+ Py.take 50 e) "interaction")).

Definition perform_scrolls (scroll_count : nat) : M unit :=
  try_except
    (for_range scroll_count
       (call (page_evaluate "window.scrollTo(0, document.body.scrollHeight)") ;ₘ
        incr_scrolls ;ₘ
        call (page_wait_for_timeout 1500%N) ;ₘ
        try_except (call (page_wait_for_load_state "networkidle" 3000%N))
          (fun _ => retM ())))
    (fun e => append_error ("Scroll error: " +:+ Py.take 50 e) "interaction").

(** The loop over [PAGINATION_SELECTORS]: the value of [next_link] when
    the loop ends. *)
Fixpoint find_next_link (visited_urls : list string) (selectors : list string)
  : M (option ElementHandle) :=
  match selectors with
  | [] => retM None
  | selector :: rest =>
      found ←ₘ try_except
        (link ←ₘ call (page_query_selector selector);
         match link with
         | Some l =>
             visible ←ₘ call (handle_is_visible l);
             if visible : bool then
               href ←ₘ call (handle_get_attribute l "href");
               if Py.truthy_opt href
                  && bool_decide (Py.or_empty href ∉ visited_urls)
               then retM (Some l)
               else retM None
             else retM None
         | None => retM None
         end)
        (fun _ => retM None);
      match found with
      | Some l => retM (Some l)
      | None => find_next_link visited_urls rest
      end
  end.

(** The loop [for _ in range(max_pages - 1)], with [n] iterations left;
    it returns [visited_urls]. *)
Fixpoint pagination_loop (n : nat) (visited_urls : list string)
  : M (list string) :=
  match n with
  | 0 => retM visited_urls
  | S n' =>
      next_link ←ₘ find_next_link visited_urls PAGINATION_SELECTORS;
      match next_link with
      | None => retM visited_urls
      | Some link =>
          visited_urls ←ₘ try_except
            (call (handle_click link) ;ₘ
             try_except (call (page_wait_for_load_state "networkidle" 5000%N))
               (fun _ => call (page_wait_for_timeout 2000%N)) ;ₘ
             current_url ←ₘ get_url;
             if bool_decide (current_url ∉ visited_urls) then
               append_page current_url ;ₘ
               retM (visited_urls ++ [current_url])
             else retM visited_urls)
            (fun _ => retM visited_urls);
          pagination_loop n' visited_urls
      end
  end.

Definition follow_pagination (max_pages : nat) : M (list string) :=
  first_url ←ₘ get_url;
  pagination_loop (max_pages - 1) [first_url].

(** The two [page.goto] attempts of [js_scrape]: [true] when the page was
    reached, [false] when the function returns from the handler of the
    second failure. *)
Definition navigate (url : string) : M bool :=
  try_except
    (call (page_goto url "networkidle" 15000%N) ;ₘ retM true)
    (fun _ =>
       try_except
         (call (page_goto url "domcontentloaded" 10000%N) ;ₘ retM true)
         (fun e2 =>
            append_error ("Navigation failed: " +:+ Py.take 50 e2) "render" ;ₘ
            retM false)).

(** The inner [try] of [js_scrape] on the captured document. *)
Definition parse_rendered (url : string) (existing_metadata : option MetaData.t)
    (html_content : string) : M unit :=
  try_except
    (tree ←ₘ lift (HTMLParser html_content);
     let tree := remove_noise tree in
     (match existing_metadata with
      | Some m =>
          if Py.truthy (MetaData.title m) then retM ()
          else set_metadata (extract_metadata tree url)
      | None => set_metadata (extract_metadata tree url)
      end) ;ₘ
     js_sections ←ₘ lift (extract_sections tree url);
     match js_sections with
     | [] => retM ()
     | _ =>
         sections ←ₘ get_sections;
         set_sections (merge_sections sections js_sections)
     end)
    (fun e => append_error ("Parse error: " +:+ Py.take 50 e) "parse").

(** The outer [try] of [js_scrape]. *)
Definition js_scrape_body (url : string) (existing_metadata : option MetaData.t)
  : M unit :=
  try_except
    (call playwright_start ;ₘ
     call chromium_launch ;ₘ
     call (browser_new_context 1920 1080 USER_AGENT) ;ₘ
     call context_new_page ;ₘ
     reached ←ₘ navigate url;
     if reached : bool then
       call (page_wait_for_timeout 1000%N) ;ₘ
       click_tabs ;ₘ
       click_load_more ;ₘ
       perform_scrolls 3 ;ₘ
       follow_pagination 3 ;ₘ
       html_content ←ₘ call page_content;
       parse_rendered url existing_metadata html_content ;ₘ
       call context_close
     else retM ())
    (fun e => append_error ("Browser error: " +:+ Py.take 50 e) "render").

(** [js_scrape]: the initial values of its variables, the outer [try],
    and the final [return].  [existing_sections or []] is
    [existing_sections] itself, or a new empty list when that one is
    empty or absent; the caller reads the list only through the value
    returned here. *)
Definition js_scrape (url : string) (existing_metadata : option MetaData.t)
    (existing_sections : list PageSection.t) (w : World)
  : MetaData.t * list PageSection.t * list ErrorItem.t * Interactions.t :=
  let s0 :=
    mkJs w
      (match existing_metadata with Some m => m | None => MetaData.default end)
      existing_sections
      (Interactions.mk [] 0 [url])
      [] in
  let s := (js_scrape_body url existing_metadata s0).2 in
  (metadata s, sections s, errors s, interactions s).

(** ** The request handler ([main.py]) *)

Context `{H : Http}.

(** [scrape_url], given the timestamp it reads and the state of the
    browser environment. *)
Definition scrape_url (scraped_at url : string) (w : World) : ScrapeResult.t :=
  let '(metadata, sections, errors, html_content, needs_js) := static_scrape url in
  let interactions := Interactions.mk [] 0 [url] in
  if needs_js || bool_decide (sections = []) then
    let '(js_metadata, js_sections, js_errors, js_interactions) :=
      js_scrape url
        (if Py.truthy (MetaData.title metadata) then Some metadata else None)
        sections w in
    let metadata :=
      if Py.truthy (MetaData.title js_metadata) then js_metadata else metadata in
    let sections :=
      match js_sections with [] => sections | _ => js_sections end in
    ScrapeResult.mk url scraped_at metadata sections js_interactions
      (errors ++ js_errors)
  else
    ScrapeResult.mk url scraped_at metadata sections interactions errors.

End RenderSteps.

(** ** Canned collaborators

    Small implementations of the collaborator classes, used to run the
    program on concrete pages: a node answers [css] from a table of
    selector and matches; a browser plays a script of navigation outcomes
    and serves one document. *)

Module Canned.

Local Unset Elimination Schemes.
Inductive node :=
  Node_ (tag : option string) (attrs : list (string * option string))
        (text : string) (html : option string)
        (answers : list (string * list node)).
Local Set Elimination Schemes.

Fixpoint assoc {A} (k : string) (l : list (string * A)) : option A :=
  match l with
  | [] => None
  | (k', v) :: l' => if decide (k' = k) then Some v else assoc k l'
  end.

Definition select (n : node) (selector : string) : list node :=
  let 'Node_ _ _ _ _ answers := n in
  default [] (assoc selector answers).

(** The documents are written without noise nodes, and URLs are joined
    by concatenation. *)
Definition dom (parse : string → Exc node) : Dom := {|
  Node := node;
  HTMLParser := parse;
  css := select;
  node_text := fun '(Node_ _ _ text _ _) => text;
  node_tag := fun '(Node_ tag _ _ _ _) => tag;
  node_html := fun '(Node_ _ _ _ html _) => html;
  attributes := fun '(Node_ _ attrs _ _ _) => list_to_map attrs;
  decompose_matching := fun n _ => n;
  urljoin := fun base u => base +:+ u;
  urlparse_scheme := fun _ => "https"
|}.

Definition http (r : fetch_result) : Http := {|
  client_get := fun _ _ _ _ => r
|}.

(** The state of the canned browser: the outcomes of the coming
    [page.goto] calls, and the document the page holds. *)
Record world := mkWorld {
  goto_script : list (Exc unit);
  document : string;
  location : string
}.

Definition goto (w : world) : Exc unit * world :=
  match goto_script w with
  | [] => (ok (), w)
  | r :: rest => (r, mkWorld rest (document w) (location w))
  end.

(** A page with no element that the interaction selectors match. *)
Definition browser : Browser := {|
  World := world;
  ElementHandle := Empty_set;
  playwright_start := fun w => (ok (), w);
  chromium_launch := fun w => (ok (), w);
  browser_new_context := fun _ _ _ w => (ok (), w);
  context_new_page := fun w => (ok (), w);
  page_goto := fun _ _ _ w => goto w;
  page_wait_for_timeout := fun _ w => (ok (), w);
  page_query_selector_all := fun _ w => (ok [], w);
  page_query_selector := fun _ w => (ok None, w);
  handle_is_visible := fun _ w => (ok false, w);
  handle_click := fun _ w => (ok (), w);
  handle_get_attribute := fun _ _ w => (ok None, w);
  page_evaluate := fun _ w => (ok (), w);
  page_wait_for_load_state := fun _ _ w => (ok (), w);
  page_url := location;
  page_content := fun w => (ok (document w), w);
  context_close := fun w => (ok (), w)
|}.

(** A listing in numbered pages: the state of the browser is the number
    of the page shown, and every page has one visible link, matched by the
    selector [a.next], to the page after it. *)
Definition paged_url (n : nat) : string :=
  "https://example.com/page/" +:+ Py.str_of_nat n.

Definition paged : Browser := {|
  World := nat;
  ElementHandle := unit;
  playwright_start := fun w => (ok (), w);
  chromium_launch := fun w => (ok (), w);
  browser_new_context := fun _ _ _ w => (ok (), w);
  context_new_page := fun w => (ok (), w);
  page_goto := fun _ _ _ w => (ok (), w);
  page_wait_for_timeout := fun _ w => (ok (), w);
  page_query_selector_all := fun _ w => (ok [], w);
  page_query_selector := fun selector w =>
    (ok (if decide (selector = "a.next") then Some () else None), w);
  handle_is_visible := fun _ w => (ok true, w);
  handle_click := fun _ w => (ok (), S w);
  handle_get_attribute := fun _ _ w => (ok (Some (paged_url (S w))), w);
  page_evaluate := fun _ w => (ok (), w);
  page_wait_for_load_state := fun _ _ w => (ok (), w);
  page_url := paged_url;
  page_content := fun w => (ok "", w);
  context_close := fun w => (ok (), w)
|}.

(** A text of [n] characters. *)
Fixpoint filler (n : nat) : string :=
  match n with
  | 0 => ""
  | S n' => String "x" (filler n')
  end.

(** A leaf element: no descendant matches any selector. *)
Definition leaf (tag : string) (attrs : list (string * option string))
    (text html : string) : node :=
  Node_ (Some tag) attrs text (Some html) [].

Definition example_url : string := "https://example.com/".

(** Three [section] elements: a pricing table, one without content, and
    one whose markup has 1001 characters. *)
Definition pricing_table : node :=
  leaf "section" [("class", Some "pricing-table")] "Plans"
    "<section class='pricing-table'>Plans</section>".
Definition blank_section : node :=
  leaf "section" [] "" "<section></section>".
Definition long_section : node :=
  leaf "section" [("id", Some "plan-b")] "Terms" (filler 1001).

(** A document with these sections and a body of 600 visible characters. *)
Definition page_sections : node :=
  Node_ None [] (filler 600) None
    [("section", [pricing_table; blank_section; long_section]);
     ("body", [leaf "body" [] (filler 600) "<body></body>"])].

(** A document with no landmark: a body of 400 visible characters. *)
Definition text_body : node := leaf "body" [] (filler 400) "<body></body>".
Definition page_body_only : node :=
  Node_ None [] (filler 400) None [("body", [text_body])].

(** A document with no landmark and nothing in its body. *)
Definition blank_body : node := leaf "body" [] "" "<body></body>".
Definition page_blank : node :=
  Node_ None [] "" None [("body", [blank_body])].

(** A section with the given id, type and text, and nothing else. *)
Definition text_section (id type text : string) : PageSection.t :=
  PageSection.mk id type text example_url
    (SectionContent.mk [] text [] [] [] []) "" false.

(** The same page before and after rendering: the static document has one
    short section; the rendered one has more text in it and a list of
    questions. *)
Definition short_section : node :=
  leaf "section" [] "short" "<section>short</section>".
Definition longer_section : node :=
  leaf "section" [] "much longer extracted text"
    "<section>much longer extracted text</section>".
Definition faq_section : node :=
  leaf "section" [("class", Some "faq")] "Questions"
    "<section class='faq'>Questions</section>".
Definition page_static : node :=
  Node_ None [] "short" None
    [("section", [short_section]);
     ("body", [leaf "body" [] "short" "<body></body>"])].
Definition page_rendered : node :=
  Node_ None [] "much longer extracted text Questions" None
    [("section", [longer_section; faq_section]);
     ("body", [leaf "body" [] "much longer extracted text Questions"
                 "<body></body>"])].

(** A document whose only landmark has a class attribute without a value. *)
Definition valueless_class_section : node :=
  leaf "section" [("class", None)] "Plans" "<section class>Plans</section>".
Definition page_valueless_class : node :=
  Node_ None [] "Plans" None
    [("section", [valueless_class_section]);
     ("body", [leaf "body" [] "Plans" "<body></body>"])].

(** The parser of the canned site: each document is served under a name
    that stands for its markup. *)
Definition library (markup : string) : Exc node :=
  if decide (markup = "sections") then ok page_sections
  else if decide (markup = "body-only") then ok page_body_only
  else if decide (markup = "blank") then ok page_blank
  else if decide (markup = "valueless-class") then ok page_valueless_class
  else raise "unknown document".

Definition site : Dom := dom library.

End Canned.

(** * Vocabulary of the properties *)

(** The keyword groups in their priority order, each with the type it
    gives (as the specification lists them). *)
Definition KEYWORD_GROUPS : list (list string * string) := [
  (["hero"; "banner"; "jumbotron"; "splash"], "hero");
  (["nav"; "menu"; "navigation"], "nav");
  (["footer"; "foot"], "footer");
  (["faq"; "accordion"; "question"], "faq");
  (["price"; "pricing"; "plan"], "pricing");
  (["grid"; "cards"; "gallery"], "grid");
  (["list"; "items"], "list")
].

(** The type of the first group one of whose keywords occurs in [combined];
    the base type when no group matches. *)
Fixpoint first_matching_group (groups : list (list string * string))
    (combined base_type : string) : string :=
  match groups with
  | [] => base_type
  | (keywords, ty) :: rest =>
      if Py.any_in keywords combined then ty
      else first_matching_group rest combined base_type
  end.

(** The base type of a tag: the tag-to-type mapping, or "unknown". *)
Definition base_type_of (tag : option string) : string :=
  default "unknown" (SECTION_TYPE_MAP !! Py.lower (default "" tag)).

(** The value of an attribute as the classifier reads it: the empty string
    when the element does not have the attribute. *)
Definition attr_text `{D : Dom} (element : Node) (name : string) : option string :=
  Py.get (attributes element) name "".

Section ScanVocabulary.
Context `{D : Dom}.

(** The markup of an element as [extract_sections] reads it:
    [element.html or ""]. *)
Definition markup (element : Node) : string := Py.or_empty (node_html element).

(** The section the primary scan appends for [element], once classified
    as [ty] with [n] earlier sections of that type. *)
Definition landmark_section (url : string) (element : Node) (ty : string)
    (n : nat) : PageSection.t :=
  let content := extract_section_content element url in
  PageSection.mk (ty +:+ "-" +:+ Py.str_of_nat n) ty
    (generate_label element content) url content
    (if 1000 <? Py.len (markup element)
     then Py.take 1000 (markup element) +:+ "..." else markup element)
    (1000 <? Py.len (markup element)).

(** The elements the primary scan visits, in scan order. *)
Definition landmarks (tree : Node) : list Node :=
  concat (css tree <$> SECTION_SELECTORS).

(** Content with no text, no headings and no links. *)
Definition empty_content (c : SectionContent.t) : Prop :=
  SectionContent.text c = ""
  ∧ SectionContent.headings c = []
  ∧ SectionContent.links c = [].

(** The elements a section can come from: a landmark, or the first
    [body] element. *)
Definition scanned (tree element : Node) : Prop :=
  element ∈ landmarks tree ∨ css_first tree "body" = Some element.

(** The markup fields of a section built from [element], by either scan. *)
Definition stores_markup_of (element : Node) (s : PageSection.t) : Prop :=
  Py.len (PageSection.rawHtml s) ≤ 1003
  ∧ (PageSection.truncated s = true ↔ 1000 < Py.len (markup element))
  ∧ PageSection.rawHtml s =
      (if PageSection.truncated s
       then Py.take 1000 (markup element) +:+ "..."
       else markup element).

End ScanVocabulary.

(** The components of what [static_scrape] returns. *)
Definition static_metadata
    (r : MetaData.t * list PageSection.t * list ErrorItem.t * string * bool)
  : MetaData.t := r.1.1.1.1.
Definition static_sections
    (r : MetaData.t * list PageSection.t * list ErrorItem.t * string * bool)
  : list PageSection.t := r.1.1.1.2.
Definition static_errors
    (r : MetaData.t * list PageSection.t * list ErrorItem.t * string * bool)
  : list ErrorItem.t := r.1.1.2.
Definition static_needs_js
    (r : MetaData.t * list PageSection.t * list ErrorItem.t * string * bool)
  : bool := r.2.

(** The request did not give a response text. *)
Definition fetch_failed (r : fetch_result) : Prop :=
  match r with
  | Response _ => False
  | _ => True
  end.

(** The section has no extracted text. *)
Definition no_text (s : PageSection.t) : Prop :=
  SectionContent.text (PageSection.content s) = "".

(** The first section with the given id. *)
Fixpoint lookup_id (i : string) (l : list PageSection.t) : option PageSection.t :=
  match l with
  | [] => None
  | s :: l' => if decide (PageSection.id s = i) then Some s else lookup_id i l'
  end.

(** What the merge keeps for an existing section: the rendered section
    with its id when that one has the strictly longer text, the existing
    section otherwise. *)
Definition merged_variant (rendered : list PageSection.t)
    (existing : PageSection.t) : PageSection.t :=
  match lookup_id (PageSection.id existing) rendered with
  | Some sec => if text_len existing <? text_len sec then sec else existing
  | None => existing
  end.

(** The rendered sections whose id no existing section has. *)
Definition new_sections (existing rendered : list PageSection.t)
  : list PageSection.t :=
  filter (fun sec => PageSection.id sec ∉ PageSection.id <$> existing) rendered.

(** The string has no dash. *)
Fixpoint dash_free (s : string) : bool :=
  match s with
  | "" => true
  | String c s' => negb (bool_decide (c = "-"%char)) && dash_free s'
  end.

(** The types the classifier can give. *)
Definition SECTION_TYPES : list string :=
  ["hero"; "nav"; "footer"; "faq"; "pricing"; "grid"; "list"; "section"; "unknown"].

(** The longest message the render pass writes: the 19 characters of
    its longest prefix and 50 characters of the exception text. *)
Definition RENDER_MESSAGE_BOUND : nat := 69.

Definition message_bounded (e : ErrorItem.t) : Prop :=
  Py.len (ErrorItem.message e) ≤ RENDER_MESSAGE_BOUND.

(** A statement of the render pass that leaves every error message within
    the bound when it finds them so. *)
Definition keeps_messages_bounded `{B : Browser} {A} (m : M A) : Prop :=
  ∀ s, Forall message_bounded (errors s) → Forall message_bounded (errors (m s).2).

(** The number of sections of type [ty] in a list. *)
Definition type_count (ty : string) (sections : list PageSection.t) : nat :=
  length (filter (fun s => PageSection.type s = ty) sections).

(** Each id is the type, a dash, and the number of earlier sections of the
    same type in the list. *)
Definition ids_by_type_ordinal (sections : list PageSection.t) : Prop :=
  ∀ i s,
    sections !! i = Some s →
    PageSection.id s =
      PageSection.type s +:+ "-"
        +:+ Py.str_of_nat (type_count (PageSection.type s) (take i sections)).

(** [b] keeps the sections of [a] in place: at each position of [a] the
    section of [b] has the same id and a text at least as long. *)
Definition extends_sections (a b : list PageSection.t) : Prop :=
  ∀ i x, a !! i = Some x →
    ∃ y, b !! i = Some y
         ∧ PageSection.id y = PageSection.id x
         ∧ text_len x ≤ text_len y.

(** The string has none of the characters that [str.split()] splits at. *)
Fixpoint space_free (s : string) : bool :=
  match s with
  | "" => true
  | String c s' => negb (Py.is_space c) && space_free s'
  end.

(** A word: not empty, and without separators. *)
Definition is_word (w : string) : Prop := w ≠ "" ∧ space_free w = true.

(** The selectors the render pass may record as clicked. *)
Definition INTERACTION_SELECTORS : list string :=
  TAB_SELECTORS ++ LOAD_MORE_SELECTORS.

(** The prefix and the phase of each error the render pass writes. *)
Definition RENDER_ERROR_KINDS : list (string * string) := [
  ("Tab click error: ", "interaction");
  ("Load more error: ", "interaction");
  ("Scroll error: ", "interaction");
  ("Navigation failed: ", "render");
  ("Parse error: ", "parse");
  ("Browser error: ", "render")
].

(** An error of one of these kinds: its prefix, then at most 50 characters
    of an exception text. *)
Definition render_error (e : ErrorItem.t) : Prop :=
  ∃ prefix text,
    (prefix, ErrorItem.phase e) ∈ RENDER_ERROR_KINDS
    ∧ ErrorItem.message e = prefix +:+ Py.take 50 text.

(** [existing_metadata] is given and has a title. *)
Definition has_title (existing_metadata : option MetaData.t) : bool :=
  match existing_metadata with
  | Some m => Py.truthy (MetaData.title m)
  | None => false
  end.

Section RenderVocabulary.
Context `{B : Browser}.

(** How the state of [js_scrape] may have changed from [s] to [s']: at most
    [c] clicks recorded, all on interaction selectors; at most [sc] scrolls
    counted; at most [p] pages logged; errors added, all render errors;
    sections kept in place; and, when [keep_meta] is set, the metadata
    untouched. *)
Definition grows (c sc p : nat) (keep_meta : bool) (s s' : JsState) : Prop :=
  (∃ lc, Interactions.clicks (interactions s')
           = Interactions.clicks (interactions s) ++ lc
         ∧ length lc ≤ c
         ∧ Forall (fun sel => sel ∈ INTERACTION_SELECTORS) lc)
  ∧ (Interactions.scrolls (interactions s)
       ≤ Interactions.scrolls (interactions s')
     ∧ Interactions.scrolls (interactions s')
       ≤ Interactions.scrolls (interactions s) + sc)
  ∧ (∃ lp, Interactions.pages (interactions s')
             = Interactions.pages (interactions s) ++ lp
           ∧ length lp ≤ p)
  ∧ (∃ le, errors s' = errors s ++ le ∧ Forall render_error le)
  ∧ extends_sections (sections s) (sections s')
  ∧ (keep_meta = true → metadata s' = metadata s).

(** A statement that changes the state within these limits, however it
    ends. *)
Definition runs_within (c sc p : nat) (keep_meta : bool) {A} (m : M A) : Prop :=
  ∀ s, grows c sc p keep_meta s (m s).2.

(** A statement that always ends normally. *)
Definition never_raises {A} (m : M A) : Prop :=
  ∀ s, ∃ a, (m s).1 = inr a.

(** The wait after a click on a pagination link ends normally and takes
    the browser from [w] to [w']: [wait_for_load_state] returns, or it
    raises and the fixed wait of the handler returns. *)
Definition settles (w w' : World) : Prop :=
  page_wait_for_load_state "networkidle" 5000%N w = (inr (), w')
  ∨ ∃ e w1, page_wait_for_load_state "networkidle" 5000%N w = (inl e, w1)
            ∧ page_wait_for_timeout 2000%N w1 = (inr (), w').

(** The search for the next link ends on [link], leaving the browser in
    [w]: one of the selectors answered [link], the link was visible, and
    its href is not empty and not among the [visited] urls. *)
Definition next_link_found (visited selectors : list string)
    (link : ElementHandle) (w : World) : Prop :=
  ∃ selector href w0 w1 w2,
    selector ∈ selectors
    ∧ page_query_selector selector w0 = (inr (Some link), w1)
    ∧ handle_is_visible link w1 = (inr true, w2)
    ∧ handle_get_attribute link "href" w2 = (inr href, w)
    ∧ Py.truthy_opt href = true
    ∧ Py.or_empty href ∉ visited.

(** [u] is a location reached by following a link when [visited] is the
    list of urls so far: a pagination link was found, the click on it and
    the wait ended normally, and [u] is the url of the page then, not
    among the visited ones. *)
Definition follows_link (visited : list string) (u : string) : Prop :=
  ∃ link w w1 w2,
    next_link_found visited PAGINATION_SELECTORS link w
    ∧ handle_click link w = (inr (), w1)
    ∧ settles w1 w2
    ∧ u = page_url w2
    ∧ u ∉ visited.

End RenderVocabulary.

(** The errors in what [js_scrape] returns. *)
Definition rendered_errors
    (r : MetaData.t * list PageSection.t * list ErrorItem.t * Interactions.t)
  : list ErrorItem.t :=
  r.1.2.

(** * Properties *)

(** ** Strings *)

Lemma len_app (a b : string) : Py.len (a +:+ b) = Py.len a + Py.len b.
Proof.
  unfold Py.len. induction a as [|c a IH]; [done|].
  change (String c a +:+ b) with (String c (a +:+ b)). simpl. by rewrite IH.
Qed.

Lemma len_take (n : nat) (s : string) : Py.len (Py.take n s) = n `min` Py.len s.
Proof.
  unfold Py.len. revert s. induction n as [|n IH]; intros [|c s]; simpl; auto.
Qed.

Lemma take_short (n : nat) (s : string) : Py.len s ≤ n → Py.take n s = s.
Proof.
  unfold Py.len. revert s.
  induction n as [|n IH]; intros [|c s]; simpl; intros Hle; try done; try lia.
  f_equal. apply IH. lia.
Qed.

Lemma truthy_true (s : string) : Py.truthy s = true ↔ s ≠ "".
Proof. by destruct s. Qed.

Lemma truthy_false (s : string) : Py.truthy s = false ↔ s = "".
Proof. by destruct s. Qed.

Lemma len_filler (n : nat) : Py.len (Canned.filler n) = n.
Proof. unfold Py.len. induction n; simpl; auto. Qed.

Lemma lower_app (a b : string) : Py.lower (a +:+ b) = Py.lower a +:+ Py.lower b.
Proof.
  induction a as [|c a IH]; [done|].
  change (String c a +:+ b) with (String c (a +:+ b)). simpl.
  rewrite IH. done.
Qed.

(** ** Classification *)


(** The keyword priority. For an element whose class and id attributes are
    absent or have a value, the type is the one of the first keyword group,
    in the fixed priority order, with a keyword occurring in the lowercased
    concatenation of class, a space and id, and the base type of the tag
    when no group matches. In particular a [section] element with class
    [pricing-table] and no id is classified as pricing. *)
Theorem determine_section_type_priority `{D : Dom} :
  (∀ element content classes element_id,
     attr_text element "class" = Some classes →
     attr_text element "id" = Some element_id →
     determine_section_type element content =
       inr (first_matching_group KEYWORD_GROUPS
              (Py.lower (classes +:+ " " +:+ element_id))
              (base_type_of (node_tag element))))
  ∧ (∀ element content,
       node_tag element = Some "section" →
       attributes element !! "class" = Some (Some "pricing-table") →
       attributes element !! "id" = None →
       base_type_of (node_tag element) = "section"
       ∧ determine_section_type element content = inr "pricing").
Proof.
  assert (Hgen : ∀ element content classes element_id,
     attr_text element "class" = Some classes →
     attr_text element "id" = Some element_id →
     determine_section_type element content =
       inr (first_matching_group KEYWORD_GROUPS
              (Py.lower (classes +:+ " " +:+ element_id))
              (base_type_of (node_tag element)))).
  { intros element content classes element_id Hc Hi.
    unfold determine_section_type, attr_text in *. rewrite Hc, Hi.
    cbv [lower_attr ebind ok].
    rewrite !lower_app.
    change (Py.lower " ") with " ".
    set (combined := Py.lower classes +:+ " " +:+ Py.lower element_id).
    assert (Hbase :
      match SECTION_TYPE_MAP !! match node_tag element with
                                | Some t => if Py.truthy t then Py.lower t else ""
                                | None => ""
                                end with
      | Some ty => ty
      | None => "unknown"
      end = base_type_of (node_tag element)).
    { unfold base_type_of. destruct (node_tag element) as [[|c t]|]; reflexivity. }
    rewrite Hbase. cbv [first_matching_group KEYWORD_GROUPS].
    repeat (destruct (Py.any_in _ combined); [done|]). done. }
  split; [exact Hgen|].
  intros element content Htag Hclass Hid.
  split; [by rewrite Htag|].
  rewrite (Hgen element content "pricing-table" "").
  - by rewrite Htag.
  - unfold attr_text, Py.get. by rewrite Hclass.
  - unfold attr_text, Py.get. by rewrite Hid.
Qed.

Lemma determine_section_type_priority_witness :
  let D := Canned.site in
  let element :=
    Canned.leaf "section" [("class", Some "pricing-table")] "Plans"
      "<section class='pricing-table'>Plans</section>" in
  let content := extract_section_content element "https://example.com/" in
  (attr_text element "class" = Some "pricing-table"
   ∧ attr_text element "id" = Some ""
   ∧ determine_section_type element content = inr "pricing")
  ∧ (node_tag element = Some "section"
     ∧ attributes element !! "class" = Some (Some "pricing-table")
     ∧ attributes element !! "id" = None
     ∧ base_type_of (node_tag element) = "section"
     ∧ determine_section_type element content = inr "pricing").
Proof.
  intros D element content. split.
  - split; [reflexivity|]. split; [reflexivity|].
    exact (proj1 determine_section_type_priority element content
             "pricing-table" "" eq_refl eq_refl).
  - split; [reflexivity|]. split; [reflexivity|]. split; [reflexivity|].
    exact (proj2 determine_section_type_priority element content
             eq_refl eq_refl eq_refl).
Defined.

(** ** Links *)

Lemma elem_of_take_elem {A} (n : nat) (l : list A) (x : A) :
  x ∈ take n l → x ∈ l.
Proof.
  intros Hx. rewrite <- (take_drop n l). apply elem_of_app. by left.
Qed.

(** A link that [link_of] builds: its anchor has a non-empty href outside
    the excluded schemes, the link text is the anchor's text or else that
    href, and the link target is the href made absolute. *)
Lemma link_of_Some `{D : Dom} (base_url : string) (a : Node) (l : LinkItem.t) :
  link_of base_url a = Some l →
  ∃ href,
    Py.get (attributes a) "href" "" = Some href
    ∧ href ≠ ""
    ∧ Py.startswith_any ["#"; "javascript:"; "mailto:"; "tel:"] href = false
    ∧ LinkItem.text l = (if Py.truthy (node_text a) then node_text a else href)
    ∧ LinkItem.href l = make_absolute_url href base_url.
Proof.
  unfold link_of. intros Hl.
  destruct (Py.get (attributes a) "href" "") as [href|]; [|done].
  cbn [Py.truthy_opt Py.or_empty] in Hl.
  destruct (Py.truthy href) eqn:Hh; [|done].
  destruct (Py.startswith_any _ href) eqn:Hp; [done|].
  cbn [andb negb] in Hl. injection Hl as <-. exists href.
  cbn [LinkItem.text LinkItem.href].
  repeat split; try done. by apply truthy_true.
Qed.

(** C10 (links). Every link of an extracted section content has a
    non-empty text; it comes from an anchor matched by [a[href]] whose href
    is non-empty and not a fragment, javascript, mailto or tel reference;
    its text is the anchor's stripped text, or that href when the text is
    empty; and its href is [make_absolute_url] of the anchor's href. *)
Theorem link_text_nonempty `{D : Dom} (element : Node) (base_url : string)
    (l : LinkItem.t) :
  l ∈ SectionContent.links (extract_section_content element base_url) →
  LinkItem.text l ≠ ""
  ∧ ∃ a href,
      a ∈ css element "a[href]"
      ∧ Py.get (attributes a) "href" "" = Some href
      ∧ href ≠ ""
      ∧ Py.startswith_any ["#"; "javascript:"; "mailto:"; "tel:"] href = false
      ∧ LinkItem.text l = (if Py.truthy (node_text a) then node_text a else href)
      ∧ LinkItem.href l = make_absolute_url href base_url.
Proof.
  unfold extract_section_content. simpl. intros Hl.
  apply elem_of_take_elem in Hl.
  apply list_elem_of_omap in Hl as (a & Ha & Hlink).
  destruct (link_of_Some _ _ _ Hlink) as (href & Hget & Hne & Hpre & Htext & Hhref).
  split.
  - rewrite Htext. destruct (Py.truthy (node_text a)) eqn:Ht; [|done].
    by apply truthy_true.
  - exists a, href. done.
Qed.

Lemma link_text_nonempty_witness :
  let D := Canned.site in
  let anchor :=
    Canned.leaf "a" [("href", Some "/pricing")] "" "<a href='/pricing'></a>" in
  let element :=
    Canned.Node_ (Some "nav") [] "" (Some "<nav><a href='/pricing'></a></nav>")
      [("a[href]", [anchor])] in
  let l := LinkItem.mk "/pricing" "https://example.com/pricing" in
  l ∈ SectionContent.links (extract_section_content element "https://example.com")
  ∧ LinkItem.text l ≠ "".
Proof.
  intros D anchor element l.
  assert (Hl : l ∈ SectionContent.links
                 (extract_section_content element "https://example.com")).
  { vm_compute. apply list_elem_of_here. }
  split; [exact Hl|].
  exact (proj1 (link_text_nonempty element "https://example.com" l Hl)).
Defined.

(** ** The landmark scan *)

Section Scan.
Context `{D : Dom}.


Lemma content_is_empty_true (c : SectionContent.t) :
  content_is_empty c = true ↔ empty_content c.
Proof.
  unfold content_is_empty, empty_content.
  rewrite !andb_true_iff, negb_true_iff, truthy_false, !bool_decide_eq_true.
  tauto.
Qed.

Lemma content_is_empty_false (c : SectionContent.t) :
  content_is_empty c = false ↔ ¬ empty_content c.
Proof.
  rewrite <- content_is_empty_true. destruct (content_is_empty c); split; auto.
  intros Hn. by destruct Hn.
Qed.

Lemma scan_element_eq (url : string) (sections : list PageSection.t)
    (counts : gmap string nat) (element : Node) :
  scan_element url (sections, counts) element =
    let content := extract_section_content element url in
    if content_is_empty content then ok (sections, counts)
    else
      ty ←ₑ determine_section_type element content;
      ok (sections ++ [landmark_section url element ty (default 0 (counts !! ty))],
          <[ty := default 0 (counts !! ty) + 1]> counts).
Proof.
  unfold scan_element. cbv zeta.
  destruct (content_is_empty _); [done|].
  destruct (determine_section_type _ _) as [msg|ty]; [done|].
  cbn [ebind].
  assert (Hn :
    (match counts !! ty with
     | Some _ => counts
     | None => <[ty:=0]> counts
     end) !!! ty = default 0 (counts !! ty)).
  { destruct (counts !! ty) as [n|] eqn:Hc.
    - by rewrite lookup_total_alt, Hc.
    - by rewrite lookup_total_insert_eq. }
  rewrite Hn. unfold landmark_section, markup.
  assert (Hi :
    <[ty:=default 0 (counts !! ty) + 1]>
      (match counts !! ty with
       | Some _ => counts
       | None => <[ty:=0]> counts
       end) = <[ty:=default 0 (counts !! ty) + 1]> counts).
  { destruct (counts !! ty); [done|]. by rewrite insert_insert_eq. }
  rewrite Hi.
  by destruct (1000 <? Py.len (Py.or_empty (node_html element))).
Qed.

Lemma efold_app {A S} (body : S → A → Exc S) (l1 l2 : list A) (s : S) :
  efold body (l1 ++ l2) s = (s' ←ₑ efold body l1 s; efold body l2 s').
Proof.
  revert s. induction l1 as [|a l1 IH]; intros s; [done|].
  simpl. destruct (body s a); [done|]. apply IH.
Qed.

Lemma efold_concat {A C S} (body : S → A → Exc S) (f : C → list A)
    (l : list C) (s : S) :
  efold (fun st c => efold body (f c) st) l s = efold body (concat (f <$> l)) s.
Proof.
  revert s. induction l as [|c l IH]; intros s; [done|].
  simpl. rewrite efold_app. destruct (efold body (f c) s); [done|]. apply IH.
Qed.

(** The nested loops visit the landmarks one after the other. *)
Lemma primary_scan_landmarks (tree : Node) (url : string) :
  primary_scan tree url = efold (scan_element url) (landmarks tree) ([], ∅).
Proof. unfold primary_scan, landmarks. apply efold_concat. Qed.

(** Induction over a scan that ends normally: a property of the sections
    and counters that every appended section preserves holds at the end. *)
Lemma scan_ind (url : string)
    (P : list PageSection.t → gmap string nat → Prop) (l : list Node) :
  (∀ sections counts element ty,
     element ∈ l →
     ¬ empty_content (extract_section_content element url) →
     determine_section_type element (extract_section_content element url)
       = inr ty →
     P sections counts →
     P (sections ++ [landmark_section url element ty (default 0 (counts !! ty))])
       (<[ty := default 0 (counts !! ty) + 1]> counts)) →
  ∀ sections counts st,
    P sections counts →
    efold (scan_element url) l (sections, counts) = inr st →
    P st.1 st.2.
Proof.
  induction l as [|element l IH]; intros Hstep sections counts st HP Hrun.
  - cbn [efold ok] in Hrun. injection Hrun as <-. done.
  - cbn [efold] in Hrun. rewrite scan_element_eq in Hrun. cbv zeta in Hrun.
    destruct (content_is_empty _) eqn:Hempty.
    + cbn [ebind ok] in Hrun. eapply IH; [|exact HP|exact Hrun].
      intros ???? Hin. apply Hstep. by right.
    + destruct (determine_section_type _ _) as [msg|ty] eqn:Hty; [done|].
      cbn [ebind ok] in Hrun. eapply IH; [| |exact Hrun].
      * intros ???? Hin. apply Hstep. by right.
      * apply Hstep; [by left| |done|done].
        by apply content_is_empty_false.
Qed.

End Scan.

Section ScanProperties.
Context `{D : Dom}.

(** Where a section of the primary scan comes from. *)
Lemma primary_scan_origin (tree : Node) (url : string)
    (st : list PageSection.t * gmap string nat) :
  primary_scan tree url = inr st →
  Forall (fun s => ∃ element ty n,
            element ∈ landmarks tree
            ∧ ¬ empty_content (extract_section_content element url)
            ∧ determine_section_type element
                (extract_section_content element url) = inr ty
            ∧ s = landmark_section url element ty n) st.1.
Proof.
  rewrite primary_scan_landmarks. intros Hrun.
  apply (scan_ind url (fun sections _ => Forall _ sections) (landmarks tree))
    with (sections := []) (counts := ∅) (st := st); [|constructor|exact Hrun].
  intros sections counts element ty Hin Hne Hty HP.
  apply Forall_app. split; [exact HP|].
  constructor; [|constructor]. by exists element, ty, (default 0 (counts !! ty)).
Qed.

(** The three ways [extract_sections] ends normally. *)
Lemma extract_sections_cases (tree : Node) (url : string)
    (secs : list PageSection.t) :
  extract_sections tree url = inr secs →
  ∃ st, primary_scan tree url = inr st
    ∧ ((st.1 ≠ [] ∧ secs = st.1)
       ∨ (st.1 = [] ∧ ∃ body, css_first tree "body" = Some body
                              ∧ secs = [body_section body url])
       ∨ (st.1 = [] ∧ css_first tree "body" = None ∧ secs = [])).
Proof.
  unfold extract_sections.
  destruct (primary_scan tree url) as [msg|st]; [done|].
  cbn [ebind]. intros Hret. exists st. split; [done|].
  destruct (st.1) as [|s l] eqn:Hst.
  - destruct (css_first tree "body") as [body|].
    + right; left. split; [done|]. exists body. by injection Hret as <-.
    + right; right. by injection Hret as <-.
  - left. by injection Hret as <-.
Qed.

Lemma stored_markup_length (raw : string) :
  Py.len (if 1000 <? Py.len raw then Py.take 1000 raw +:+ "..." else raw)
    ≤ 1003.
Proof.
  destruct (1000 <? Py.len raw) eqn:Hlen.
  - rewrite len_app, len_take. change (Py.len "...") with 3. lia.
  - apply Nat.ltb_ge in Hlen. lia.
Qed.

Lemma landmark_section_markup (url : string) (element : Node) (ty : string)
    (n : nat) :
  stores_markup_of element (landmark_section url element ty n).
Proof.
  unfold stores_markup_of, landmark_section. cbn [PageSection.rawHtml PageSection.truncated].
  split; [apply stored_markup_length|]. split; [apply Nat.ltb_lt|done].
Qed.

Lemma body_section_markup (url : string) (body : Node) :
  stores_markup_of body (body_section body url).
Proof.
  unfold stores_markup_of, body_section. cbn [PageSection.rawHtml PageSection.truncated].
  split; [apply stored_markup_length|]. split; [apply Nat.ltb_lt|done].
Qed.

(** C4 (truncation). Every section that [extract_sections] returns was
    built from a scanned element (a landmark or the body); its stored
    [rawHtml] has at most 1003 characters; [truncated] is true exactly
    when the element's markup has more than 1000 characters; and
    [rawHtml] is then the first 1000 characters of the markup followed by
    three dots, and the whole markup otherwise. *)
Theorem raw_html_truncation (tree : Node) (url : string)
    (secs : list PageSection.t) (s : PageSection.t) :
  extract_sections tree url = inr secs →
  s ∈ secs →
  ∃ element,
    scanned tree element
    ∧ PageSection.content s = extract_section_content element url
    ∧ Py.len (PageSection.rawHtml s) ≤ 1003
    ∧ (PageSection.truncated s = true ↔ 1000 < Py.len (markup element))
    ∧ PageSection.rawHtml s =
        (if PageSection.truncated s
         then Py.take 1000 (markup element) +:+ "..."
         else markup element).
Proof.
  intros Hret Hs.
  destruct (extract_sections_cases _ _ _ Hret)
    as (st & Hscan & [[Hne ->]|[[Hnil (body & Hbody & ->)]|(_ & _ & ->)]]).
  - pose proof (primary_scan_origin _ _ _ Hscan) as Horigin.
    rewrite Forall_forall in Horigin.
    destruct (Horigin s Hs) as (element & ty & n & Hin & _ & _ & ->).
    exists element. split; [by left|]. split; [done|].
    apply landmark_section_markup.
  - apply list_elem_of_singleton in Hs as ->.
    exists body. split; [by right|]. split; [done|].
    apply body_section_markup.
  - by apply elem_of_nil in Hs.
Qed.

(** C5 (emptiness filter). The primary scan leaves its sections and
    counters as they are at a landmark whose content has no text, no
    headings and no links, so no section of its result has such content;
    the fallback, when the primary scan found nothing and the document has
    a body, returns the body section also when the body's content is
    empty. *)
Theorem landmark_emptiness_filter (url : string) :
  (∀ st element,
     empty_content (extract_section_content element url) →
     scan_element url st element = inr st)
  ∧ (∀ tree st s,
       primary_scan tree url = inr st →
       s ∈ st.1 →
       ¬ empty_content (PageSection.content s))
  ∧ (∀ tree st body,
       primary_scan tree url = inr st →
       st.1 = [] →
       css_first tree "body" = Some body →
       empty_content (extract_section_content body url) →
       ∃ s, extract_sections tree url = inr [s]
            ∧ empty_content (PageSection.content s)).
Proof.
  split; [|split].
  - intros [sections counts] element Hempty.
    rewrite scan_element_eq. cbv zeta.
    apply content_is_empty_true in Hempty. by rewrite Hempty.
  - intros tree st s Hscan Hs.
    pose proof (primary_scan_origin _ _ _ Hscan) as Horigin.
    rewrite Forall_forall in Horigin.
    by destruct (Horigin s Hs) as (element & ty & n & _ & Hne & _ & ->).
  - intros tree st body Hscan Hnil Hbody Hempty.
    exists (body_section body url). split; [|done].
    unfold extract_sections. rewrite Hscan. cbn [ebind].
    by rewrite Hnil, Hbody.
Qed.

Lemma type_count_app (ty : string) (l1 l2 : list PageSection.t) :
  type_count ty (l1 ++ l2) = type_count ty l1 + type_count ty l2.
Proof. unfold type_count. by rewrite filter_app, length_app. Qed.

Lemma type_count_landmark (url : string) (element : Node) (ty ty' : string)
    (n : nat) :
  type_count ty' [landmark_section url element ty n] =
    if decide (ty = ty') then 1 else 0.
Proof.
  unfold type_count. rewrite filter_cons. cbn [PageSection.type landmark_section].
  by repeat case_decide.
Qed.

(** The counters count the sections of each type, and the ids follow them. *)
Lemma primary_scan_counts (tree : Node) (url : string)
    (st : list PageSection.t * gmap string nat) :
  primary_scan tree url = inr st →
  (∀ ty, default 0 (st.2 !! ty) = type_count ty st.1)
  ∧ ids_by_type_ordinal st.1.
Proof.
  rewrite primary_scan_landmarks. intros Hrun.
  apply (scan_ind url
           (fun sections counts =>
              (∀ ty, default 0 (counts !! ty) = type_count ty sections)
              ∧ ids_by_type_ordinal sections) (landmarks tree))
    with (sections := []) (counts := ∅) (st := st); [| |exact Hrun].
  - intros sections counts element ty _ _ _ [Hcount Hids]. split.
    + intros ty'. rewrite type_count_app, type_count_landmark.
      destruct (decide (ty = ty')) as [<-|Hne].
      * rewrite lookup_insert_eq. cbn. rewrite Hcount. lia.
      * rewrite lookup_insert_ne by done. rewrite Hcount. lia.
    + intros i s Hi. apply lookup_snoc_Some in Hi as [[Hlt Hi]|[-> <-]].
      * rewrite take_app_le by lia. by apply Hids.
      * rewrite take_app_length. cbn [landmark_section PageSection.id PageSection.type].
        by rewrite Hcount.
  - split; [done|]. intros i s Hi. by rewrite lookup_nil in Hi.
Qed.

(** C6 (section ids), as the code has it. Every section of the primary
    landmark scan has the id made of its type, a dash and the number of
    earlier sections of the same type in the scan; the counter of each type
    counts its sections from 0. What [extract_sections] returns is either
    such a list, or the one fallback section with id [body-0] and type
    [unknown]. *)
Theorem section_ids_by_type_ordinal (tree : Node) (url : string) :
  (∀ st,
     primary_scan tree url = inr st →
     ids_by_type_ordinal st.1
     ∧ ∀ ty, default 0 (st.2 !! ty) = type_count ty st.1)
  ∧ (∀ secs,
       extract_sections tree url = inr secs →
       ids_by_type_ordinal secs
       ∨ ∃ body s,
           css_first tree "body" = Some body
           ∧ secs = [s]
           ∧ PageSection.content s = extract_section_content body url
           ∧ PageSection.id s = "body-0"
           ∧ PageSection.type s = "unknown").
Proof.
  split.
  - intros st Hscan. destruct (primary_scan_counts _ _ _ Hscan). done.
  - intros secs Hret.
    destruct (extract_sections_cases _ _ _ Hret)
      as (st & Hscan & [[Hne ->]|[[Hnil (body & Hbody & ->)]|(_ & _ & ->)]]).
    + left. by destruct (primary_scan_counts _ _ _ Hscan).
    + right. by exists body, (body_section body url).
    + left. intros i s Hi. by rewrite lookup_nil in Hi.
Qed.

End ScanProperties.

Lemma raw_html_truncation_witness :
  let D := Canned.site in
  let url := Canned.example_url in
  let s := landmark_section url Canned.long_section "pricing" 1 in
  let secs := [landmark_section url Canned.pricing_table "pricing" 0; s] in
  extract_sections Canned.page_sections url = inr secs
  ∧ s ∈ secs
  ∧ ∃ element,
      scanned Canned.page_sections element
      ∧ PageSection.content s = extract_section_content element url
      ∧ Py.len (PageSection.rawHtml s) ≤ 1003
      ∧ (PageSection.truncated s = true ↔ 1000 < Py.len (markup element))
      ∧ PageSection.rawHtml s =
          (if PageSection.truncated s
           then Py.take 1000 (markup element) +:+ "..."
           else markup element).
Proof.
  intros D url s secs.
  assert (Hret : extract_sections Canned.page_sections url = inr secs)
    by (vm_compute; reflexivity).
  assert (Hs : s ∈ secs) by (apply list_elem_of_further, list_elem_of_here).
  split; [exact Hret|]. split; [exact Hs|].
  exact (raw_html_truncation Canned.page_sections url secs s Hret Hs).
Defined.

Lemma landmark_emptiness_filter_witness :
  let D := Canned.site in
  let url := Canned.example_url in
  (empty_content (extract_section_content Canned.blank_section url)
   ∧ scan_element url ([], ∅) Canned.blank_section = inr ([], ∅))
  ∧ (∃ st s, primary_scan Canned.page_sections url = inr st
             ∧ s ∈ st.1
             ∧ ¬ empty_content (PageSection.content s))
  ∧ (∃ s, extract_sections Canned.page_blank url = inr [s]
          ∧ empty_content (PageSection.content s)).
Proof.
  intros D url.
  destruct (landmark_emptiness_filter (D := D) url) as (Hskip & Hprimary & Hfallback).
  split; [|split].
  - assert (Hempty : empty_content
                       (extract_section_content (D := D) Canned.blank_section url))
      by (vm_compute; done).
    split; [exact Hempty|]. exact (Hskip ([], ∅) Canned.blank_section Hempty).
  - destruct (primary_scan (D := D) Canned.page_sections url)
      as [msg|st] eqn:Hscan;
      [by vm_compute in Hscan|].
    set (s := landmark_section (D := D) url Canned.pricing_table "pricing" 0).
    exists st, s.
    assert (Hs : s ∈ st.1).
    { vm_compute in Hscan. injection Hscan as <-. apply list_elem_of_here. }
    split; [done|]. split; [exact Hs|].
    exact (Hprimary Canned.page_sections st _ Hscan Hs).
  - apply (Hfallback Canned.page_blank ([], ∅) Canned.blank_body).
    + vm_compute. reflexivity.
    + reflexivity.
    + reflexivity.
    + vm_compute. done.
Defined.

Lemma section_ids_by_type_ordinal_witness :
  let D := Canned.site in
  let url := Canned.example_url in
  (∃ st, primary_scan Canned.page_sections url = inr st
         ∧ ids_by_type_ordinal st.1)
  ∧ (∃ secs, extract_sections Canned.page_body_only url = inr secs
             ∧ (ids_by_type_ordinal secs
                ∨ ∃ body s,
                    css_first Canned.page_body_only "body" = Some body
                    ∧ secs = [s]
                    ∧ PageSection.content s = extract_section_content body url
                    ∧ PageSection.id s = "body-0"
                    ∧ PageSection.type s = "unknown")).
Proof.
  intros D url.
  destruct (section_ids_by_type_ordinal (D := D)
              Canned.page_sections url) as [Hprimary _].
  destruct (section_ids_by_type_ordinal (D := D)
              Canned.page_body_only url) as [_ Hall].
  split.
  - destruct (primary_scan (D := D) Canned.page_sections url)
      as [msg|st] eqn:Hscan;
      [by vm_compute in Hscan|].
    exists st. split; [done|]. exact (proj1 (Hprimary st eq_refl)).
  - exists [body_section (D := D) Canned.text_body url].
    assert (Hret : extract_sections (D := D) Canned.page_body_only url
                   = inr [body_section (D := D) Canned.text_body url])
      by (vm_compute; reflexivity).
    split; [exact Hret|]. exact (Hall _ Hret).
Defined.

(** C6 as stated fails on the fallback: a document with no landmark and a
    body yields one section with id [body-0] and type [unknown], which is
    not the type followed by a dash and an ordinal. *)
Lemma fallback_id_is_not_type_ordinal :
  ∃ secs,
    extract_sections (D := Canned.site) Canned.page_body_only Canned.example_url
      = inr secs
    ∧ ¬ ids_by_type_ordinal secs.
Proof.
  exists [body_section (D := Canned.site) Canned.text_body Canned.example_url].
  split; [vm_compute; reflexivity|].
  intros Hids. specialize (Hids 0 _ eq_refl). vm_compute in Hids. discriminate.
Qed.

(** ** The static pass and the escalation decision *)

Section StaticProperties.
Context `{D : Dom} `{H : Http}.

Lemma all_text_empty_true (sections : list PageSection.t) :
  all_text_empty sections = true ↔ Forall no_text sections.
Proof.
  unfold all_text_empty. rewrite forallb_forall, Forall_forall.
  split; intros Hall s Hs.
  - apply list_elem_of_In, Hall, negb_true_iff, truthy_false in Hs. exact Hs.
  - apply negb_true_iff, truthy_false, Hall, list_elem_of_In, Hs.
Qed.

(** The second [try] of [static_scrape] raises when the parser raises or
    when the extraction of sections raises. *)
Lemma static_parse_raises (html url msg : string) :
  static_parse html url = inl msg ↔
  HTMLParser html = inl msg
  ∨ ∃ tree, HTMLParser html = inr tree
            ∧ extract_sections (remove_noise tree) url = inl msg.
Proof.
  unfold static_parse.
  destruct (HTMLParser html) as [e|tree]; cbn [ebind].
  - split; [intros [= ->]; by left|]. intros [[= ->]|(tree & [=] & _)]. done.
  - destruct (extract_sections (remove_noise tree) url) as [e|secs] eqn:Hsecs;
      cbn [ebind ok].
    + split.
      * intros [= ->]. right. by exists tree.
      * intros [[=]|(tree' & [= <-] & Herr)]. congruence.
    + split; [done|]. intros [[=]|(tree' & [= <-] & Herr)]. congruence.
Qed.

(** C1 (escalation). [needs_js] is true exactly when the fetch failed, or
    the body text left after noise removal has fewer than 500 characters,
    or no section is returned, or every returned section has empty text;
    when none of these holds it is false. *)
Theorem needs_render_iff (url : string) :
  let r := static_scrape url in
  let insufficient :=
    fetch_failed (client_get 30 true USER_AGENT url)
    ∨ (∃ html tree,
         client_get 30 true USER_AGENT url = Response html
         ∧ HTMLParser html = inr tree
         ∧ get_text_content_length (remove_noise tree) < 500)
    ∨ static_sections r = []
    ∨ Forall no_text (static_sections r) in
  (static_needs_js r = true ↔ insufficient)
  ∧ (¬ insufficient → static_needs_js r = false).
Proof.
  cbv zeta.
  match goal with |- (?n = true ↔ ?P) ∧ _ =>
    cut (n = true ↔ P);
    [intros Hiff; split; [exact Hiff|];
     intros Hno; destruct n; [by destruct Hno; apply Hiff|done]|]
  end.
  unfold static_scrape, static_needs_js, static_sections.
  destruct (client_get 30 true USER_AGENT url) as [html| | |] eqn:Hget;
    try (cbn; split; [intros _; by left|done]).
  unfold static_parse.
  destruct (HTMLParser html) as [e|tree] eqn:Hparse; cbn [ebind].
  { cbn. split; [intros _; by right; right; left|done]. }
  destruct (extract_sections (remove_noise tree) url) as [e|secs] eqn:Hsecs;
    cbn [ebind ok].
  { cbn. split; [intros _; by right; right; left|done]. }
  cbn [fst snd fetch_failed].
  destruct (bool_decide (secs = []) || all_text_empty secs) eqn:Hcond.
  - split; [intros _|done].
    apply orb_true_iff in Hcond as [Hnil|Hall].
    + right; right; left. by apply bool_decide_eq_true in Hnil.
    + right; right; right. by apply all_text_empty_true.
  - apply orb_false_iff in Hcond as [Hnil Hall].
    apply bool_decide_eq_false in Hnil.
    split.
    + intros Hlen. right; left. exists html, tree. repeat split; try done.
      destruct (get_text_content_length (remove_noise tree) <? 500) eqn:Hlt;
        [by apply Nat.ltb_lt|done].
    + intros [[]|[(html' & tree' & [= <-] & Htree & Hlt)|[Hsec|Hsec]]].
      * rewrite Hparse in Htree. injection Htree as <-.
        apply Nat.ltb_lt in Hlt. by rewrite Hlt.
      * done.
      * apply all_text_empty_true in Hsec. congruence.
Qed.

End StaticProperties.

(** The two cases of the specification: a body of 400 visible characters
    and no landmark needs the render pass; a body of 600 characters with a
    section that has text does not. *)
Example needs_render_400_no_landmark :
  static_needs_js
    (static_scrape (D := Canned.site) (H := Canned.http (Response "body-only"))
       Canned.example_url) = true.
Proof. vm_compute. reflexivity. Qed.

Example needs_render_600_with_section :
  static_needs_js
    (static_scrape (D := Canned.site) (H := Canned.http (Response "sections"))
       Canned.example_url) = false.
Proof. vm_compute. reflexivity. Qed.

Lemma needs_render_iff_witness :
  let D := Canned.site in
  let H := Canned.http (Response "sections") in
  let url := Canned.example_url in
  let r := static_scrape url in
  ¬ (fetch_failed (client_get 30 true USER_AGENT url)
     ∨ (∃ html tree,
          client_get 30 true USER_AGENT url = Response html
          ∧ HTMLParser html = inr tree
          ∧ get_text_content_length (remove_noise tree) < 500)
     ∨ static_sections r = []
     ∨ Forall no_text (static_sections r))
  ∧ static_needs_js r = false.
Proof.
  intros D H url r.
  match goal with |- ¬ ?P ∧ _ => assert (Hno : ¬ P) end.
  { intros [[]|[(html & tree & [= <-] & Htree & Hlt)|[Hnil|Hall]]].
    - vm_compute in Htree. injection Htree as <-. vm_compute in Hlt. lia.
    - vm_compute in Hnil. discriminate.
    - vm_compute in Hall. apply Forall_cons in Hall as [Htext _]. discriminate. }
  split; [exact Hno|].
  exact (proj2 (needs_render_iff (D := D) (H := H) url) Hno).
Defined.

(** ** Failure of the static pass *)

(** C9 (static failure). When the fetch fails, or the parse of a fetched
    text raises, [static_scrape] returns the default metadata, no section,
    one error tagged with the phase that failed, and [needs_js] true; and
    [scrape_url] then runs [js_scrape] and builds its result from what the
    render pass returns, after the static error. *)
Theorem static_failure_escalates `{D : Dom} `{B : Browser} `{H : Http}
    (url : string) :
  fetch_failed (client_get 30 true USER_AGENT url)
  ∨ (∃ html msg, client_get 30 true USER_AGENT url = Response html
                 ∧ static_parse html url = inl msg) →
  ∃ message phase html,
    static_scrape url =
      (MetaData.default, [], [ErrorItem.mk message phase], html, true)
    ∧ (fetch_failed (client_get 30 true USER_AGENT url) → phase = "fetch")
    ∧ (∀ html' msg, client_get 30 true USER_AGENT url = Response html' →
                    static_parse html' url = inl msg →
                    phase = "parse" ∧ message = msg ∧ html = html')
    ∧ ∀ scraped_at w,
        scrape_url scraped_at url w =
          let js := js_scrape url None [] w in
          ScrapeResult.mk url scraped_at
            (if Py.truthy (MetaData.title js.1.1.1) then js.1.1.1
             else MetaData.default)
            js.1.1.2 js.2 (ErrorItem.mk message phase :: js.1.2).
Proof.
  intros Hfail.
  assert (Hrun : ∀ message phase html,
    static_scrape url =
      (MetaData.default, [], [ErrorItem.mk message phase], html, true) →
    ∀ scraped_at w,
      scrape_url scraped_at url w =
        let js := js_scrape url None [] w in
        ScrapeResult.mk url scraped_at
          (if Py.truthy (MetaData.title js.1.1.1) then js.1.1.1
           else MetaData.default)
          js.1.1.2 js.2 (ErrorItem.mk message phase :: js.1.2)).
  { intros message phase html Hstatic scraped_at w.
    unfold scrape_url. rewrite Hstatic. cbn -[js_scrape].
    destruct (js_scrape url None [] w) as [[[jm js] je] ji]. cbn.
    by destruct js. }
  unfold static_scrape in *.
  destruct (client_get 30 true USER_AGENT url) as [html| |code|msg] eqn:Hget.
  - destruct Hfail as [[]|(html' & msg & [= <-] & Hparse)].
    rewrite Hparse in *. exists msg, "parse", html.
    split; [done|]. split; [done|]. split; [|exact (Hrun _ _ _ eq_refl)].
    intros html' msg' [= <-] Hparse'. split; [done|]. split; congruence.
  - exists "Request timeout", "fetch", "". repeat split; try done. exact (Hrun _ _ _ eq_refl).
  - exists ("HTTP " +:+ Py.str_of_nat code), "fetch", "".
    repeat split; try done. exact (Hrun _ _ _ eq_refl).
  - exists msg, "fetch", "". repeat split; try done. exact (Hrun _ _ _ eq_refl).
Qed.

Lemma static_failure_escalates_witness :
  let D := Canned.site in
  let B := Canned.browser in
  let url := Canned.example_url in
  (let H := Canned.http TimeoutException in
   fetch_failed (client_get 30 true USER_AGENT url)
   ∧ ∃ message phase html,
       static_scrape url =
         (MetaData.default, [], [ErrorItem.mk message phase], html, true)
       ∧ (fetch_failed (client_get 30 true USER_AGENT url) → phase = "fetch")
       ∧ (∀ html' msg, client_get 30 true USER_AGENT url = Response html' →
                       static_parse html' url = inl msg →
                       phase = "parse" ∧ message = msg ∧ html = html')
       ∧ ∀ scraped_at w,
           scrape_url scraped_at url w =
             let js := js_scrape url None [] w in
             ScrapeResult.mk url scraped_at
               (if Py.truthy (MetaData.title js.1.1.1) then js.1.1.1
                else MetaData.default)
               js.1.1.2 js.2 (ErrorItem.mk message phase :: js.1.2))
  ∧ (let H := Canned.http (Response "valueless-class") in
     static_parse "valueless-class" url
       = inl "'NoneType' object has no attribute 'lower'"
     ∧ ∃ message phase html,
         static_scrape url =
           (MetaData.default, [], [ErrorItem.mk message phase], html, true)
         ∧ (fetch_failed (client_get 30 true USER_AGENT url) → phase = "fetch")
         ∧ (∀ html' msg, client_get 30 true USER_AGENT url = Response html' →
                         static_parse html' url = inl msg →
                         phase = "parse" ∧ message = msg ∧ html = html')
         ∧ ∀ scraped_at w,
             scrape_url scraped_at url w =
               let js := js_scrape url None [] w in
               ScrapeResult.mk url scraped_at
                 (if Py.truthy (MetaData.title js.1.1.1) then js.1.1.1
                  else MetaData.default)
                 js.1.1.2 js.2 (ErrorItem.mk message phase :: js.1.2)).
Proof.
  intros D B url. split.
  - intros H.
    assert (Hfail : fetch_failed (client_get 30 true USER_AGENT url)) by exact I.
    split; [exact Hfail|].
    exact (static_failure_escalates (D := D) (B := B) (H := H) url
             (or_introl Hfail)).
  - intros H.
    assert (Hparse : static_parse (D := D) "valueless-class" url
                     = inl "'NoneType' object has no attribute 'lower'")
      by (vm_compute; reflexivity).
    split; [exact Hparse|].
    exact (static_failure_escalates (D := D) (B := B) (H := H) url
             (or_intror (ex_intro _ "valueless-class"
                (ex_intro _ _ (conj eq_refl Hparse))))).
Defined.

(** A parse failure that the program itself raises: a landmark whose class
    attribute has no value makes [.lower()] fail, and the static pass turns
    that into a parse error with no section. *)
Example valueless_class_is_parse_error :
  static_scrape (D := Canned.site) (H := Canned.http (Response "valueless-class"))
    Canned.example_url
  = (MetaData.default, [],
     [ErrorItem.mk "'NoneType' object has no attribute 'lower'" "parse"],
     "valueless-class", true).
Proof. vm_compute. reflexivity. Qed.

(** ** Navigation failure in the render pass *)

(** C8 (navigation failure). When the browser, its context and the page
    are opened and both [page.goto] attempts raise (first with
    [networkidle] and 15000 ms, then with [domcontentloaded] and 10000 ms),
    [js_scrape] returns the metadata and sections it was given, the
    interactions log holding only the url, and exactly one error, of phase
    render; and [scrape_url], when it escalates, returns the static
    metadata and sections with that error after the static errors. *)
Theorem navigation_failure_keeps_static `{D : Dom} `{B : Browser} `{H : Http}
    (url : string) (w w1 w2 w3 w4 w5 w6 : World) (e1 e2 : string) :
  playwright_start w = (inr (), w1) →
  chromium_launch w1 = (inr (), w2) →
  browser_new_context 1920 1080 USER_AGENT w2 = (inr (), w3) →
  context_new_page w3 = (inr (), w4) →
  page_goto url "networkidle" 15000%N w4 = (inl e1, w5) →
  page_goto url "domcontentloaded" 10000%N w5 = (inl e2, w6) →
  let render_error :=
    ErrorItem.mk ("Navigation failed: " +:+ Py.take 50 e2) "render" in
  (∀ existing_metadata existing_sections,
     js_scrape url existing_metadata existing_sections w =
       (default MetaData.default existing_metadata, existing_sections,
        [render_error], Interactions.mk [] 0 [url]))
  ∧ (∀ scraped_at,
       let r := static_scrape url in
       static_needs_js r || bool_decide (static_sections r = []) = true →
       scrape_url scraped_at url w =
         ScrapeResult.mk url scraped_at (static_metadata r) (static_sections r)
           (Interactions.mk [] 0 [url]) (static_errors r ++ [render_error])).
Proof.
  intros Hstart Hlaunch Hcontext Hpage Hgoto1 Hgoto2 render_error.
  assert (Hjs : ∀ existing_metadata existing_sections,
     js_scrape url existing_metadata existing_sections w =
       (default MetaData.default existing_metadata, existing_sections,
        [render_error], Interactions.mk [] 0 [url])).
  { intros existing_metadata existing_sections.
    unfold js_scrape, js_scrape_body, navigate.
    unfold try_except, bindM, call, retM, append_error.
    cbn [world metadata sections interactions errors].
    rewrite Hstart. cbn [world metadata sections interactions errors].
    rewrite Hlaunch. cbn [world metadata sections interactions errors].
    rewrite Hcontext. cbn [world metadata sections interactions errors].
    rewrite Hpage. cbn [world metadata sections interactions errors].
    rewrite Hgoto1. cbn [world metadata sections interactions errors].
    rewrite Hgoto2. cbn [world metadata sections interactions errors snd app].
    by destruct existing_metadata. }
  split; [exact Hjs|].
  intros scraped_at r Hescalate. subst r.
  unfold scrape_url, static_needs_js, static_sections, static_metadata,
    static_errors in *.
  destruct (static_scrape url) as [[[[metadata sections] errors] html] needs_js].
  cbn [fst snd] in *. rewrite Hescalate, Hjs.
  destruct (Py.truthy (MetaData.title metadata)) eqn:Htitle;
    cbn [default from_option id].
  - rewrite Htitle. by destruct sections.
  - change (Py.truthy (MetaData.title MetaData.default)) with false.
    by destruct sections.
Qed.

Lemma navigation_failure_keeps_static_witness :
  let D := Canned.site in
  let B := Canned.browser in
  let H := Canned.http (Response "body-only") in
  let url := Canned.example_url in
  let w := Canned.mkWorld [inl "net::ERR_NAME_NOT_RESOLVED";
                           inl "Timeout 10000ms exceeded"] "sections" url in
  let render_error :=
    ErrorItem.mk "Navigation failed: Timeout 10000ms exceeded" "render" in
  let r := static_scrape url in
  (static_needs_js r || bool_decide (static_sections r = []) = true)
  ∧ js_scrape url None (static_sections r) w =
      (MetaData.default, static_sections r, [render_error],
       Interactions.mk [] 0 [url])
  ∧ scrape_url "2024-01-01T00:00:00Z" url w =
      ScrapeResult.mk url "2024-01-01T00:00:00Z" (static_metadata r)
        (static_sections r) (Interactions.mk [] 0 [url])
        (static_errors r ++ [render_error]).
Proof.
  intros D B H url w render_error r.
  pose proof (navigation_failure_keeps_static (D := D) (B := B) (H := H) url
                w w w w w
                (Canned.mkWorld [inl "Timeout 10000ms exceeded"] "sections" url)
                (Canned.mkWorld [] "sections" url)
                "net::ERR_NAME_NOT_RESOLVED" "Timeout 10000ms exceeded"
                eq_refl eq_refl eq_refl eq_refl eq_refl eq_refl) as [Hjs Hmain].
  assert (Hescalate :
    static_needs_js r || bool_decide (static_sections r = []) = true)
    by (vm_compute; reflexivity).
  split; [exact Hescalate|]. split.
  - exact (Hjs None (static_sections r)).
  - exact (Hmain "2024-01-01T00:00:00Z" Hescalate).
Defined.

(** ** The merge of rendered sections *)

Lemma lookup_id_Some (i : string) (l : list PageSection.t) (s : PageSection.t) :
  lookup_id i l = Some s → PageSection.id s = i ∧ s ∈ l.
Proof.
  induction l as [|x l IH]; [done|]. simpl.
  destruct (decide (PageSection.id x = i)) as [Hx|Hx].
  - intros [= <-]. split; [done|]. apply list_elem_of_here.
  - intros Hl. destruct (IH Hl). split; [done|]. by apply list_elem_of_further.
Qed.

Lemma lookup_id_None (i : string) (l : list PageSection.t) :
  lookup_id i l = None ↔ i ∉ PageSection.id <$> l.
Proof.
  induction l as [|x l IH]; simpl.
  - split; [intros _; apply not_elem_of_nil|done].
  - rewrite not_elem_of_cons.
    destruct (decide (PageSection.id x = i)) as [Hx|Hx].
    + split; [done|]. intros [Hne _]. by destruct Hne.
    + rewrite IH. split; [by split|by intros []].
Qed.

Lemma lookup_id_snoc (i : string) (l : list PageSection.t) (sec : PageSection.t) :
  lookup_id i (l ++ [sec]) =
    match lookup_id i l with
    | Some s => Some s
    | None => if decide (PageSection.id sec = i) then Some sec else None
    end.
Proof.
  induction l as [|x l IH]; simpl; [done|].
  by destruct (decide (PageSection.id x = i)).
Qed.

(** In a list without repeated ids a section is the first one with its id. *)
Lemma lookup_id_NoDup (l : list PageSection.t) (sec : PageSection.t) :
  NoDup (PageSection.id <$> l) → sec ∈ l →
  lookup_id (PageSection.id sec) l = Some sec.
Proof.
  induction l as [|x l IH]; intros Hnd Hin; [by apply elem_of_nil in Hin|].
  rewrite fmap_cons in Hnd. apply NoDup_cons in Hnd as [Hx Hnd]. simpl.
  apply elem_of_cons in Hin as [->|Hin].
  - by rewrite decide_True.
  - rewrite decide_False; [by apply IH|].
    intros Heq. apply Hx. rewrite Heq. by apply list_elem_of_fmap_2.
Qed.

Lemma merged_variant_id (rendered : list PageSection.t) (existing : PageSection.t) :
  PageSection.id (merged_variant rendered existing) = PageSection.id existing.
Proof.
  unfold merged_variant.
  destruct (lookup_id _ rendered) as [sec|] eqn:Hsec; [|done].
  apply lookup_id_Some in Hsec as [Hid _].
  by destruct (text_len existing <? text_len sec).
Qed.

Lemma replace_if_longer_app (sec : PageSection.t) (l1 l2 : list PageSection.t) :
  PageSection.id sec ∈ PageSection.id <$> l1 →
  replace_if_longer sec (l1 ++ l2) = replace_if_longer sec l1 ++ l2.
Proof.
  induction l1 as [|x l1 IH]; intros Hin; [by apply elem_of_nil in Hin|].
  simpl. destruct (decide (PageSection.id x = PageSection.id sec)) as [Hx|Hx].
  - by destruct (text_len x <? text_len sec).
  - rewrite fmap_cons in Hin. apply elem_of_cons in Hin as [Hin|Hin]; [done|].
    by rewrite IH.
Qed.

(** A section whose id differs from the one of [sec] keeps its variant when
    [sec] is added to the rendered sections. *)
Lemma merged_variant_snoc_ne (p : list PageSection.t) (sec e : PageSection.t) :
  PageSection.id sec ≠ PageSection.id e →
  merged_variant (p ++ [sec]) e = merged_variant p e.
Proof.
  intros Hne. unfold merged_variant. rewrite lookup_id_snoc.
  destruct (lookup_id (PageSection.id e) p); [done|]. by rewrite decide_False.
Qed.

(** One step of the merge on the existing sections, for a rendered section
    whose id was not rendered before. *)
Lemma replace_if_longer_variants (p static : list PageSection.t)
    (sec : PageSection.t) :
  NoDup (PageSection.id <$> static) →
  PageSection.id sec ∉ PageSection.id <$> p →
  replace_if_longer sec (merged_variant p <$> static) =
    merged_variant (p ++ [sec]) <$> static.
Proof.
  intros Hnd Hfresh.
  induction static as [|e static IH]; [done|].
  rewrite fmap_cons in Hnd. apply NoDup_cons in Hnd as [He Hnd].
  rewrite !fmap_cons. cbn [replace_if_longer]. rewrite merged_variant_id.
  destruct (decide (PageSection.id e = PageSection.id sec)) as [Heq|Hne].
  - assert (Hp : merged_variant p e = e).
    { unfold merged_variant. rewrite Heq.
      by apply lookup_id_None in Hfresh as ->. }
    assert (Hps : merged_variant (p ++ [sec]) e
                  = if text_len e <? text_len sec then sec else e).
    { unfold merged_variant. rewrite lookup_id_snoc, Heq.
      apply lookup_id_None in Hfresh as ->. by rewrite decide_True. }
    rewrite Hp, Hps.
    assert (Hrest : merged_variant p <$> static
                    = merged_variant (p ++ [sec]) <$> static).
    { apply list_fmap_ext. intros i x Hx. symmetry.
      apply merged_variant_snoc_ne. intros Hid. apply He.
      rewrite Heq, Hid. apply list_elem_of_fmap_2.
      by apply list_elem_of_lookup_2 in Hx. }
    rewrite Hrest. by destruct (text_len e <? text_len sec).
  - rewrite (IH Hnd). by rewrite merged_variant_snoc_ne.
Qed.

(** The merge, as a whole: each existing section becomes its variant, in
    place, and the rendered sections with a new id follow in their order. *)
Lemma merge_sections_eq (static rendered : list PageSection.t) :
  NoDup (PageSection.id <$> static) →
  NoDup (PageSection.id <$> rendered) →
  merge_sections static rendered =
    (merged_variant rendered <$> static) ++ new_sections static rendered.
Proof.
  intros Hstatic. unfold merge_sections.
  induction rendered as [|sec p IH] using rev_ind; intros Hnd.
  - cbn. rewrite app_nil_r. symmetry. rewrite <- (list_fmap_id static) at 2.
    by apply list_fmap_ext.
  - rewrite fmap_app in Hnd. apply NoDup_app in Hnd as (Hp & Hfresh & _).
    assert (Hsec : PageSection.id sec ∉ PageSection.id <$> p).
    { intros Hin. apply (Hfresh _ Hin). apply list_elem_of_here. }
    rewrite foldl_snoc, (IH Hp). unfold merge_one, new_sections.
    rewrite filter_app, filter_cons, filter_nil.
    destruct (decide (PageSection.id sec ∈ _)) as [Hin|Hnew].
    + apply elem_of_list_to_set in Hin.
      rewrite decide_False by (by intros Hn; apply Hn).
      rewrite app_nil_r, replace_if_longer_app.
      * by rewrite replace_if_longer_variants.
      * rewrite <- list_fmap_compose.
        erewrite list_fmap_ext; [exact Hin|].
        intros i x _. apply merged_variant_id.
    + rewrite elem_of_list_to_set in Hnew. rewrite decide_True by done.
      rewrite app_assoc. do 2 f_equal. apply list_fmap_ext. intros i x Hx.
      symmetry. apply merged_variant_snoc_ne. intros Hid. apply Hnew.
      rewrite Hid. apply list_elem_of_fmap_2.
      by apply list_elem_of_lookup_2 in Hx.
Qed.




(** ** Ids are unique within a pass *)

Lemma str_app_nil (s : string) : "" +:+ s = s.
Proof. reflexivity. Qed.

Lemma str_app_cons (c : ascii) (a s : string) :
  String c a +:+ s = String c (a +:+ s).
Proof. reflexivity. Qed.

Lemma dash_free_app_inj (a a' b b' : string) :
  dash_free a = true → dash_free a' = true →
  a +:+ "-" +:+ b = a' +:+ "-" +:+ b' → a = a' ∧ b = b'.
Proof.
  revert a'. induction a as [|c a IH]; intros [|c' a'] Ha Ha' Heq;
    repeat (rewrite str_app_nil in Heq || rewrite str_app_cons in Heq).
  - by injection Heq as ->.
  - injection Heq as <- _. cbn in Ha'. by rewrite bool_decide_eq_true_2 in Ha'.
  - injection Heq as -> _. cbn in Ha. by rewrite bool_decide_eq_true_2 in Ha.
  - injection Heq as -> Heq. cbn in Ha, Ha'.
    apply andb_true_iff in Ha as [_ Ha]. apply andb_true_iff in Ha' as [_ Ha'].
    destruct (IH a' Ha Ha' Heq) as [-> ->]. done.
Qed.

Lemma section_types_dash_free (ty : string) :
  ty ∈ SECTION_TYPES → dash_free ty = true.
Proof.
  unfold SECTION_TYPES. intros Hin.
  repeat (apply elem_of_cons in Hin as [->|Hin]; [reflexivity|]).
  by apply elem_of_nil in Hin.
Qed.

Lemma determine_section_type_values `{D : Dom} (element : Node)
    (content : SectionContent.t) (ty : string) :
  determine_section_type element content = inr ty → ty ∈ SECTION_TYPES.
Proof.
  unfold determine_section_type.
  destruct (lower_attr _) as [e|classes]; [done|]. cbn [ebind].
  destruct (lower_attr _) as [e|element_id]; [done|]. cbn [ebind].
  repeat (destruct (Py.any_in _ _);
          [intros [= <-]; apply (bool_decide_unpack _); vm_compute; exact I|]).
  intros [= <-].
  destruct (SECTION_TYPE_MAP !! _) as [ty|] eqn:Hty.
  - unfold SECTION_TYPE_MAP in Hty. apply elem_of_list_to_map_2 in Hty.
    repeat (apply elem_of_cons in Hty as [[= _ ->]|Hty];
            [apply (bool_decide_unpack _); vm_compute; exact I|]).
    by apply elem_of_nil in Hty.
  - apply (bool_decide_unpack _). vm_compute. exact I.
Qed.

Lemma type_count_take_lt (secs : list PageSection.t) (i j : nat)
    (s : PageSection.t) :
  i < j → secs !! i = Some s →
  type_count (PageSection.type s) (take i secs)
    < type_count (PageSection.type s) (take j secs).
Proof.
  intros Hlt Hi.
  assert (Hsplit : take j secs = take (S i) secs ++ drop (S i) (take j secs)).
  { rewrite <- (take_drop (S i) (take j secs)) at 1. f_equal.
    rewrite take_take. f_equal. lia. }
  rewrite Hsplit, (take_S_r _ _ _ Hi), !type_count_app.
  assert (type_count (PageSection.type s) [s] = 1); [|lia].
  unfold type_count. by rewrite filter_cons, decide_True.
Qed.

Section UniqueIds.
Context `{D : Dom}.

Lemma primary_scan_ids_differ (tree : Node) (url : string)
    (st : list PageSection.t * gmap string nat) (i j : nat)
    (s s' : PageSection.t) :
  primary_scan tree url = inr st →
  i < j → st.1 !! i = Some s → st.1 !! j = Some s' →
  PageSection.id s ≠ PageSection.id s'.
Proof.
  intros Hscan Hlt Hi Hj Heq.
  destruct (primary_scan_counts _ _ _ Hscan) as [_ Hids].
  pose proof (primary_scan_origin _ _ _ Hscan) as Horigin.
  rewrite Forall_forall in Horigin.
  assert (Hfree : ∀ x, x ∈ st.1 → dash_free (PageSection.type x) = true).
  { intros x Hx. destruct (Horigin x Hx) as (element & ty & n & _ & _ & Hty & ->).
    apply section_types_dash_free. cbn.
    by eapply determine_section_type_values. }
  rewrite (Hids i s Hi), (Hids j s' Hj) in Heq.
  apply dash_free_app_inj in Heq as [Hty Hn].
  - apply (inj Py.str_of_nat) in Hn.
    pose proof (type_count_take_lt _ _ _ _ Hlt Hi) as Hcount.
    rewrite Hty in Hcount at 2. unfold Py.str_of_nat in *. lia.
  - apply Hfree. by eapply list_elem_of_lookup_2.
  - apply Hfree. by eapply list_elem_of_lookup_2.
Qed.

(** The sections of one extraction pass have pairwise different ids. *)
Lemma extract_sections_NoDup (tree : Node) (url : string)
    (secs : list PageSection.t) :
  extract_sections tree url = inr secs → NoDup (PageSection.id <$> secs).
Proof.
  intros Hret.
  destruct (extract_sections_cases _ _ _ Hret)
    as (st & Hscan & [[Hne ->]|[[Hnil (body & Hbody & ->)]|(_ & _ & ->)]]).
  - apply NoDup_alt. intros i j x Hi Hj.
    apply list_lookup_fmap_Some in Hi as (s & -> & Hi).
    apply list_lookup_fmap_Some in Hj as (s' & Heq & Hj).
    destruct (Nat.lt_trichotomy i j) as [Hlt|[->|Hgt]]; [|done|].
    + by destruct (primary_scan_ids_differ _ _ _ _ _ _ _ Hscan Hlt Hi Hj).
    + by destruct (primary_scan_ids_differ _ _ _ _ _ _ _ Hscan Hgt Hj Hi).
  - apply NoDup_singleton.
  - constructor.
Qed.

End UniqueIds.



(** ** Classification of an attribute without a value *)

Lemma determine_section_type_cases `{D : Dom} (element : Node)
    (content : SectionContent.t) :
  match determine_section_type element content with
  | inl msg =>
      msg = "'NoneType' object has no attribute 'lower'"
      ∧ (attributes element !! "class" = Some None
         ∨ attributes element !! "id" = Some None)
  | inr ty =>
      ty ∈ SECTION_TYPES
      ∧ attributes element !! "class" ≠ Some None
      ∧ attributes element !! "id" ≠ Some None
  end.
Proof.
  destruct (determine_section_type element content) as [msg|ty] eqn:Hty.
  - unfold determine_section_type, Py.get in Hty.
    destruct (attributes element !! "class") as [[classes|]|] eqn:Hclass;
      cbn [lower_attr ebind ok raise] in Hty;
      try (injection Hty as <-; split; [done|by left]);
      (destruct (attributes element !! "id") as [[element_id|]|] eqn:Hid;
       cbn [lower_attr ebind ok raise] in Hty;
       try (injection Hty as <-; split; [done|by right]);
       repeat (destruct (Py.any_in _ _); [done|]); done).
  - split; [by eapply determine_section_type_values|].
    unfold determine_section_type, Py.get in Hty.
    destruct (attributes element !! "class") as [[classes|]|]; [|done|];
      (destruct (attributes element !! "id") as [[element_id|]|]; [|done|]);
      done.
Qed.

Section ScanAsAWhole.
Context `{D : Dom}.

Lemma determine_section_type_raises (element : Node) (content : SectionContent.t) :
  (∃ msg, determine_section_type element content = inl msg) ↔
  attributes element !! "class" = Some None
  ∨ attributes element !! "id" = Some None.
Proof.
  pose proof (determine_section_type_cases element content) as Hcases.
  destruct (determine_section_type element content) as [msg|ty].
  - destruct Hcases as [_ Hattr]. split; [done|]. intros _. by eexists.
  - destruct Hcases as (_ & Hclass & Hid).
    split; [by intros [msg ?]|]. by intros [?|?].
Qed.

(** A scan raises exactly when it meets a landmark with content whose
    classification raises. *)
Lemma efold_scan_raises (url : string) (l : list Node)
    (st : list PageSection.t * gmap string nat) :
  (∃ msg, efold (scan_element url) l st = inl msg) ↔
  ∃ element,
    element ∈ l
    ∧ ¬ empty_content (extract_section_content element url)
    ∧ ∃ msg, determine_section_type element
               (extract_section_content element url) = inl msg.
Proof.
  revert st. induction l as [|x l IH]; intros [sections counts].
  - cbn. split; [by intros [msg ?]|]. intros (element & Hin & _).
    by apply elem_of_nil in Hin.
  - cbn [efold]. rewrite scan_element_eq. cbv zeta.
    destruct (content_is_empty (extract_section_content x url)) eqn:Hempty.
    + cbn [ebind ok]. rewrite IH. split.
      * intros (element & Hin & Hrest). exists element.
        split; [by right|done].
      * intros (element & Hin & Hne & Hraise).
        apply elem_of_cons in Hin as [->|Hin].
        -- by apply content_is_empty_true in Hempty.
        -- by exists element.
    + apply content_is_empty_false in Hempty.
      destruct (determine_section_type x _) as [msg|ty] eqn:Hty; cbn [ebind ok].
      * split; [|by intros _; eexists]. intros _. exists x.
        split; [by left|]. split; [done|]. by eexists.
      * rewrite IH. split.
        -- intros (element & Hin & Hrest). exists element.
           split; [by right|done].
        -- intros (element & Hin & Hne & msg & Hraise).
           apply elem_of_cons in Hin as [->|Hin]; [congruence|].
           exists element. split; [done|]. split; [done|]. by eexists.
Qed.

(** The contents of the sections a scan appends: those of the landmarks
    with content, in scan order. *)
Lemma efold_scan_contents (url : string) (l : list Node)
    (sections : list PageSection.t) (counts : gmap string nat)
    (st : list PageSection.t * gmap string nat) :
  efold (scan_element url) l (sections, counts) = inr st →
  PageSection.content <$> st.1 =
    (PageSection.content <$> sections)
    ++ filter (fun c => content_is_empty c = false)
         ((fun element => extract_section_content element url) <$> l).
Proof.
  revert sections counts. induction l as [|x l IH]; intros sections counts Hrun.
  - cbn in Hrun. injection Hrun as <-. cbn. by rewrite app_nil_r.
  - cbn [efold] in Hrun. rewrite scan_element_eq in Hrun. cbv zeta in Hrun.
    rewrite fmap_cons, filter_cons.
    destruct (content_is_empty (extract_section_content x url)) eqn:Hempty.
    + cbn [ebind ok] in Hrun. rewrite decide_False by done. by eapply IH.
    + destruct (determine_section_type x _) as [msg|ty]; [done|].
      cbn [ebind ok] in Hrun. rewrite decide_True by done.
      rewrite (IH _ _ Hrun), fmap_app. cbn. by rewrite <- app_assoc.
Qed.

End ScanAsAWhole.

(** C7 (classification), where the code departs from it: for an element
    whose class or id attribute is written without a value,
    [determine_section_type] does not return a type, it raises the
    AttributeError of [.lower()] on [None]; and a page fetched and parsed
    normally that holds such a landmark with content gets no section at
    all from the static pass, which records one error of phase parse and
    returns the default metadata. *)
Theorem determine_section_type_valueless_raises `{D : Dom} `{H : Http} :
  (∀ element content,
     attributes element !! "class" = Some None
     ∨ attributes element !! "id" = Some None →
     determine_section_type element content
       = inl "'NoneType' object has no attribute 'lower'")
  ∧ (∀ url html tree element,
       client_get 30 true USER_AGENT url = Response html →
       HTMLParser html = inr tree →
       element ∈ landmarks (remove_noise tree) →
       ¬ empty_content (extract_section_content element url) →
       attributes element !! "class" = Some None
       ∨ attributes element !! "id" = Some None →
       ∃ msg,
         static_scrape url =
           (MetaData.default, [], [ErrorItem.mk msg "parse"], html, true)).
Proof.
  assert (Hraise : ∀ element content,
     attributes element !! "class" = Some None
     ∨ attributes element !! "id" = Some None →
     determine_section_type element content
       = inl "'NoneType' object has no attribute 'lower'").
  { intros element content Hattr.
    pose proof (determine_section_type_cases element content) as Hcases.
    destruct (determine_section_type element content) as [msg|ty].
    - by destruct Hcases as [-> _].
    - destruct Hcases as (_ & Hclass & Hid). by destruct Hattr. }
  split; [exact Hraise|].
  intros url html tree element Hget Hparse Hin Hcontent Hattr.
  assert (Hscan : ∃ msg, primary_scan (remove_noise tree) url = inl msg).
  { rewrite primary_scan_landmarks. apply efold_scan_raises.
    exists element. split; [done|]. split; [done|].
    eexists. by apply Hraise. }
  destruct Hscan as [msg Hscan]. exists msg.
  unfold static_scrape. rewrite Hget. unfold static_parse.
  rewrite Hparse. cbn [ebind]. unfold extract_sections.
  rewrite Hscan. done.
Qed.

Lemma determine_section_type_valueless_raises_witness :
  let D := Canned.site in
  let H := Canned.http (Response "valueless-class") in
  let element := Canned.valueless_class_section in
  node_tag element = Some "section"
  ∧ attributes element !! "class" = Some None
  ∧ determine_section_type element
      (extract_section_content element Canned.example_url)
    = inl "'NoneType' object has no attribute 'lower'"
  ∧ ∃ msg,
      static_scrape Canned.example_url =
        (MetaData.default, [], [ErrorItem.mk msg "parse"],
         "valueless-class", true).
Proof.
  intros D H element.
  split; [reflexivity|]. split; [reflexivity|]. split.
  - exact (proj1 (determine_section_type_valueless_raises (D := D) (H := H))
             element _ (or_introl eq_refl)).
  - apply (proj2 (determine_section_type_valueless_raises (D := D) (H := H))
             Canned.example_url "valueless-class" Canned.page_valueless_class
             element eq_refl eq_refl).
    + apply list_elem_of_here.
    + intros (Htext & _). vm_compute in Htext. discriminate.
    + by left.
Defined.

(** ** Length of error messages *)

(** C3 (message length), on the static pass: no constant bounds the
    message of the error that [static_scrape] records for an exception of
    the request other than a timeout or an HTTP status, since the message
    is the whole text of the exception. *)
Theorem static_error_message_unbounded `{D : Dom} (bound : nat) :
  ∃ (H : Http) (url : string) (e : ErrorItem.t),
    static_errors (static_scrape url) = [e]
    ∧ ErrorItem.phase e = "fetch"
    ∧ bound < Py.len (ErrorItem.message e).
Proof.
  exists (Canned.http (OtherException (Canned.filler (S bound)))), "",
    (ErrorItem.mk (Canned.filler (S bound)) "fetch").
  split; [reflexivity|]. split; [reflexivity|].
  cbn [ErrorItem.message]. rewrite len_filler. lia.
Qed.

(** The same for the parse phase of the static pass: the text of the
    exception of the parser is recorded whole. *)
Lemma static_parse_message_whole `{D : Dom} `{H : Http} (url html msg : string) :
  client_get 30 true USER_AGENT url = Response html →
  HTMLParser html = inl msg →
  static_errors (static_scrape url) = [ErrorItem.mk msg "parse"].
Proof.
  intros Hget Hparse. unfold static_scrape, static_parse.
  by rewrite Hget, Hparse.
Qed.

(** The render pass, for comparison: every message it writes is a prefix
    of at most 19 characters followed by at most 50 characters of the
    exception text. *)
Section RenderMessages.
Context `{D : Dom} `{B : Browser}.

Lemma prefixed_message_bounded (prefix e phase : string) :
  Py.len prefix ≤ 19 →
  message_bounded (ErrorItem.mk (prefix +:+ Py.take 50 e) phase).
Proof.
  intros Hprefix. unfold message_bounded, RENDER_MESSAGE_BOUND.
  cbn [ErrorItem.message]. rewrite len_app, len_take. lia.
Qed.

Lemma kmb_ret {A} (a : A) : keeps_messages_bounded (retM a).
Proof. by intros s Hs. Qed.

Lemma kmb_bind {A C} (m : M A) (k : A → M C) :
  keeps_messages_bounded m → (∀ a, keeps_messages_bounded (k a)) →
  keeps_messages_bounded (bindM m k).
Proof.
  intros Hm Hk s Hs. unfold bindM. specialize (Hm s Hs).
  destruct (m s) as [[e|a] s']; [done|]. by apply Hk.
Qed.

Lemma kmb_try {A} (m : M A) (handler : string → M A) :
  keeps_messages_bounded m → (∀ e, keeps_messages_bounded (handler e)) →
  keeps_messages_bounded (try_except m handler).
Proof.
  intros Hm Hh s Hs. unfold try_except. specialize (Hm s Hs).
  destruct (m s) as [[e|a] s']; [by apply Hh|done].
Qed.

Lemma kmb_call {A} (op : World → Exc A * World) :
  keeps_messages_bounded (call op).
Proof. intros s Hs. unfold call. by destruct (op (world s)). Qed.

Lemma kmb_lift {A} (r : Exc A) : keeps_messages_bounded (lift r).
Proof. by intros s Hs. Qed.

Lemma kmb_append_error (prefix e phase : string) :
  Py.len prefix ≤ 19 →
  keeps_messages_bounded (append_error (prefix +:+ Py.take 50 e) phase).
Proof.
  intros Hprefix s Hs. cbn. apply Forall_app. split; [done|].
  constructor; [|constructor]. by apply prefixed_message_bounded.
Qed.

Lemma kmb_append_click (selector : string) :
  keeps_messages_bounded (append_click selector).
Proof. by intros s Hs. Qed.

Lemma kmb_incr_scrolls : keeps_messages_bounded incr_scrolls.
Proof. by intros s Hs. Qed.

Lemma kmb_append_page (url : string) : keeps_messages_bounded (append_page url).
Proof. by intros s Hs. Qed.

Lemma kmb_set_metadata (m : MetaData.t) : keeps_messages_bounded (set_metadata m).
Proof. by intros s Hs. Qed.

Lemma kmb_set_sections (l : list PageSection.t) :
  keeps_messages_bounded (set_sections l).
Proof. by intros s Hs. Qed.

Lemma kmb_get_sections : keeps_messages_bounded get_sections.
Proof. by intros s Hs. Qed.

Lemma kmb_get_url : keeps_messages_bounded get_url.
Proof. by intros s Hs. Qed.

Lemma kmb_for_each {A} (l : list A) (body : A → M unit) :
  (∀ x, keeps_messages_bounded (body x)) →
  keeps_messages_bounded (for_each l body).
Proof.
  intros Hbody. induction l as [|x l IH]; cbn [for_each].
  - apply kmb_ret.
  - apply kmb_bind; [apply Hbody|]. intros _. exact IH.
Qed.

Lemma kmb_for_range (n : nat) (body : M unit) :
  keeps_messages_bounded body → keeps_messages_bounded (for_range n body).
Proof.
  intros Hbody. induction n as [|n IH]; cbn [for_range].
  - apply kmb_ret.
  - apply kmb_bind; [exact Hbody|]. intros _. exact IH.
Qed.

Lemma kmb_for_range_break (n : nat) (body : M bool) :
  keeps_messages_bounded body → keeps_messages_bounded (for_range_break n body).
Proof.
  intros Hbody. induction n as [|n IH]; cbn [for_range_break].
  - apply kmb_ret.
  - apply kmb_bind; [exact Hbody|]. intros [|]; [exact IH|apply kmb_ret].
Qed.

End RenderMessages.

Create HintDb kmb discriminated.
#[export] Hint Resolve kmb_ret kmb_call kmb_lift kmb_append_click
  kmb_incr_scrolls kmb_append_page kmb_set_metadata kmb_set_sections
  kmb_get_sections kmb_get_url : kmb.

(** One step of the analysis of a statement: a primitive, a sequence, a
    handler, a loop or a branch. *)
Ltac kmb_step :=
  match goal with
  | |- keeps_messages_bounded (bindM _ _) => apply kmb_bind; [|intros ?]
  | |- keeps_messages_bounded (try_except _ _) => apply kmb_try; [|intros ?]
  | |- keeps_messages_bounded (for_each _ _) => apply kmb_for_each; intros ?
  | |- keeps_messages_bounded (for_range _ _) => apply kmb_for_range
  | |- keeps_messages_bounded (for_range_break _ _) => apply kmb_for_range_break
  | |- keeps_messages_bounded (append_error _ _) =>
      apply kmb_append_error; vm_compute; lia
  | |- keeps_messages_bounded (if ?b then _ else _) => destruct b
  | |- keeps_messages_bounded (match ?o with Some _ => _ | None => _ end) =>
      destruct o
  | |- keeps_messages_bounded (match ?l with [] => _ | _ :: _ => _ end) =>
      destruct l
  | |- keeps_messages_bounded _ => solve [auto with kmb]
  end.

Ltac kmb := repeat kmb_step.

Section RenderPassMessages.
Context `{D : Dom} `{B : Browser}.

Lemma kmb_click_tabs : keeps_messages_bounded click_tabs.
Proof. unfold click_tabs. kmb. Qed.

Lemma kmb_click_load_more : keeps_messages_bounded click_load_more.
Proof. unfold click_load_more. kmb. Qed.

Lemma kmb_perform_scrolls (n : nat) : keeps_messages_bounded (perform_scrolls n).
Proof. unfold perform_scrolls. kmb. Qed.

Lemma kmb_find_next_link (visited_urls selectors : list string) :
  keeps_messages_bounded (find_next_link visited_urls selectors).
Proof.
  induction selectors as [|selector rest IH]; cbn [find_next_link]; [kmb|].
  apply kmb_bind; [kmb|]. intros [l|]; [kmb|exact IH].
Qed.

Lemma kmb_pagination_loop (n : nat) (visited_urls : list string) :
  keeps_messages_bounded (pagination_loop n visited_urls).
Proof.
  revert visited_urls. induction n as [|n IH]; intros visited_urls;
    cbn [pagination_loop]; [kmb|].
  apply kmb_bind; [apply kmb_find_next_link|]. intros [link|]; [|kmb].
  apply kmb_bind; [kmb|]. intros visited. apply IH.
Qed.

Lemma kmb_follow_pagination (max_pages : nat) :
  keeps_messages_bounded (follow_pagination max_pages).
Proof.
  unfold follow_pagination. apply kmb_bind; [kmb|]. intros first_url.
  apply kmb_pagination_loop.
Qed.

Lemma kmb_navigate (url : string) : keeps_messages_bounded (navigate url).
Proof. unfold navigate. kmb. Qed.

Lemma kmb_parse_rendered (url : string) (existing_metadata : option MetaData.t)
    (html_content : string) :
  keeps_messages_bounded (parse_rendered url existing_metadata html_content).
Proof. unfold parse_rendered. kmb. Qed.

Lemma kmb_js_scrape_body (url : string) (existing_metadata : option MetaData.t) :
  keeps_messages_bounded (js_scrape_body url existing_metadata).
Proof.
  unfold js_scrape_body.
  pose proof kmb_click_tabs. pose proof kmb_click_load_more.
  pose proof (kmb_perform_scrolls 3). pose proof (kmb_follow_pagination 3).
  pose proof (kmb_navigate url).
  pose proof (kmb_parse_rendered url existing_metadata).
  repeat first [assumption | kmb_step].
Qed.

(** Every error that [js_scrape] returns has a message of at most 69
    characters. *)
Lemma js_scrape_messages_bounded (url : string)
    (existing_metadata : option MetaData.t)
    (existing_sections : list PageSection.t) (w : World) :
  Forall message_bounded
    (js_scrape url existing_metadata existing_sections w).1.2.
Proof.
  unfold js_scrape. cbn [fst snd].
  apply kmb_js_scrape_body. constructor.
Qed.

End RenderPassMessages.

(** A request whose exception text has 126 characters, such as the one of
    httpx for a url with an unsupported scheme of 80 letters: the static
    pass records all of it, more than any message of the render pass. *)
Example static_scrape_long_fetch_message :
  let msg :=
    "Request URL has an unsupported protocol '" +:+ Canned.filler 80 +:+ "://'." in
  let r := static_scrape (D := Canned.site) (H := Canned.http (OtherException msg))
             (Canned.filler 80 +:+ "://example.com/") in
  static_errors r = [ErrorItem.mk msg "fetch"]
  ∧ Py.len msg = 126
  ∧ ¬ message_bounded (ErrorItem.mk msg "fetch").
Proof.
  cbv zeta. split; [reflexivity|]. split; [vm_compute; reflexivity|].
  unfold message_bounded, RENDER_MESSAGE_BOUND. vm_compute. lia.
Qed.

(** * Further properties of the code *)

(** ** Section content *)

Lemma nonempty_texts_nonempty `{D : Dom} (ns : list Node) :
  Forall (fun s => s ≠ "") (nonempty_texts ns).
Proof.
  unfold nonempty_texts. apply Forall_forall. intros s Hs.
  apply list_elem_of_filter in Hs as [Hs _]. by apply truthy_true.
Qed.

Lemma Forall_take_of {A} (P : A → Prop) (n : nat) (l : list A) :
  Forall P l → Forall P (take n l).
Proof.
  intros Hl. apply Forall_forall. intros x Hx.
  rewrite Forall_forall in Hl. apply Hl. by eapply elem_of_take_elem.
Qed.

(** The lists of an extracted content are capped (50 links, 20 images, 10
    list groups, 5 tables), and nothing empty is kept: no empty heading, no
    empty list group or list item, no empty table or table row. *)
Theorem section_content_caps `{D : Dom} (element : Node) (base_url : string) :
  let c := extract_section_content element base_url in
  length (SectionContent.links c) ≤ 50
  ∧ length (SectionContent.images c) ≤ 20
  ∧ length (SectionContent.lists c) ≤ 10
  ∧ length (SectionContent.tables c) ≤ 5
  ∧ Forall (fun h => h ≠ "") (SectionContent.headings c)
  ∧ Forall (fun items => items ≠ [] ∧ Forall (fun item => item ≠ "") items)
      (SectionContent.lists c)
  ∧ Forall (fun rows => rows ≠ [] ∧ Forall (fun row => row ≠ []) rows)
      (SectionContent.tables c).
Proof.
  cbv zeta. unfold extract_section_content.
  cbn [SectionContent.links SectionContent.images SectionContent.lists
       SectionContent.tables SectionContent.headings].
  rewrite !length_take.
  repeat split; try lia.
  - apply nonempty_texts_nonempty.
  - apply Forall_take_of, Forall_forall. intros items Hitems.
    apply list_elem_of_filter in Hitems as [Hne Hin]. split; [done|].
    apply list_elem_of_fmap in Hin as (ul & -> & _).
    apply nonempty_texts_nonempty.
  - apply Forall_take_of, Forall_forall. intros rows Hrows.
    apply list_elem_of_filter in Hrows as [Hne Hin]. split; [done|].
    apply list_elem_of_fmap in Hin as (table & -> & _).
    unfold table_rows. apply Forall_forall. intros row Hrow.
    by apply list_elem_of_filter in Hrow as [Hrow _].
Qed.

Lemma join_cons_nonempty (sep p : string) (ps : list string) :
  p ≠ "" → Py.join sep (p :: ps) ≠ "".
Proof.
  intros Hp. destruct p as [|c p]; [done|].
  destruct ps; cbn [Py.join]; [done|]. by rewrite str_app_cons.
Qed.

(** The text of an extracted content is the paragraphs' texts joined by
    spaces; without any paragraph text it is the first 500 characters of
    the element's own text. It is empty exactly when there is no paragraph
    text and the element has no text. *)
Theorem section_content_text `{D : Dom} (element : Node) (base_url : string) :
  let c := extract_section_content element base_url in
  let paragraphs := nonempty_texts (css element "p") in
  SectionContent.text c =
    (match paragraphs with
     | [] => Py.take 500 (node_text element)
     | _ => Py.join " " paragraphs
     end)
  ∧ (SectionContent.text c = "" ↔ paragraphs = [] ∧ node_text element = "")
  ∧ (paragraphs = [] → Py.len (SectionContent.text c) ≤ 500).
Proof.
  cbv zeta. unfold extract_section_content. cbn [SectionContent.text].
  pose proof (nonempty_texts_nonempty (css element "p")) as Hparts.
  destruct (nonempty_texts (css element "p")) as [|p ps] eqn:Hp.
  - destruct (node_text element) as [|ch t] eqn:Ht; cbn [Py.truthy].
    + split; [done|]. split; [done|]. intros _. cbn. lia.
    + cbn [Py.join]. split; [done|]. split.
      * split; [done|]. by intros [_ ?].
      * intros _. rewrite len_take. lia.
  - split; [done|]. split; [|done]. split; [|by intros [? _]].
    intros Hjoin. apply Forall_cons in Hparts as [Hne _].
    by apply join_cons_nonempty in Hjoin.
Qed.

Lemma section_content_text_witness :
  let D := Canned.site in
  let c := extract_section_content Canned.pricing_table Canned.example_url in
  nonempty_texts (css Canned.pricing_table "p") = []
  ∧ SectionContent.text c = "Plans"
  ∧ Py.len (SectionContent.text c) ≤ 500.
Proof.
  intros D c.
  assert (Hp : nonempty_texts (D := D) (css Canned.pricing_table "p") = [])
    by reflexivity.
  split; [exact Hp|]. split; [reflexivity|].
  exact (proj2 (proj2 (section_content_text (D := D) Canned.pricing_table
                         Canned.example_url)) Hp).
Defined.

(** ** Absolute urls *)

Lemma startswith_app (p s t : string) :
  Py.startswith p s = true → Py.startswith p (s +:+ t) = true.
Proof.
  revert s. induction p as [|a p IH]; intros [|b s]; cbn; try done.
  rewrite str_app_cons. cbn. destruct (decide (a = b)); [apply IH|done].
Qed.

(** [make_absolute_url] leaves an http or https url as it is, whatever the
    base; it prefixes a protocol-relative reference with the scheme of the
    base and a colon, and when that scheme is http or https the result is
    again left as it is; the empty reference stays empty. *)
Theorem make_absolute_url_fixed `{D : Dom} (href base_url : string) :
  make_absolute_url "" base_url = ""
  ∧ (Py.startswith "http://" href = true ∨ Py.startswith "https://" href = true →
     make_absolute_url href base_url = href)
  ∧ (Py.startswith "//" href = true →
     make_absolute_url href base_url = urlparse_scheme base_url +:+ ":" +:+ href
     ∧ (urlparse_scheme base_url = "http" ∨ urlparse_scheme base_url = "https" →
        ∀ other_base,
          make_absolute_url (make_absolute_url href base_url) other_base
            = make_absolute_url href base_url)).
Proof.
  assert (Hfixed : ∀ h b,
    Py.startswith "http://" h = true ∨ Py.startswith "https://" h = true →
    make_absolute_url h b = h).
  { intros h b Hh. unfold make_absolute_url, Py.startswith_any. cbn [existsb].
    assert (Htruthy : Py.truthy h = true) by (destruct h, Hh; done).
    assert (Hrel : Py.startswith "//" h = false).
    { destruct h as [|c h]; [done|]. cbn. destruct (decide ("/"%char = c)) as [<-|];
        [|done]. destruct Hh as [Hh|Hh]; cbn in Hh; done. }
    rewrite Htruthy, Hrel. cbn [negb]. by destruct Hh as [-> | ->]; cbn;
      rewrite ?orb_true_r. }
  split; [done|]. split; [apply Hfixed|].
  intros Hrel.
  assert (Heq : make_absolute_url href base_url
                = urlparse_scheme base_url +:+ ":" +:+ href).
  { unfold make_absolute_url, Py.startswith_any. cbn [existsb].
    assert (Htruthy : Py.truthy href = true) by (by destruct href).
    rewrite Htruthy, Hrel. cbn [negb]. by rewrite !orb_true_r. }
  split; [exact Heq|].
  intros Hscheme other_base. rewrite Heq. apply Hfixed.
  destruct href as [|c1 [|c2 href]]; cbn in Hrel;
    [done|by destruct (decide ("/"%char = c1))|].
  destruct (decide ("/"%char = c1)) as [<-|]; [|done].
  destruct (decide ("/"%char = c2)) as [<-|]; [|done].
  destruct Hscheme as [-> | ->]; [left|right]; reflexivity.
Qed.

Lemma make_absolute_url_fixed_witness :
  let D := Canned.site in
  make_absolute_url "https://example.com/a" "http://other.org/" = "https://example.com/a"
  ∧ make_absolute_url "//cdn.example.com/x.png" Canned.example_url
      = "https://cdn.example.com/x.png"
  ∧ make_absolute_url
      (make_absolute_url "//cdn.example.com/x.png" Canned.example_url)
      "http://other.org/"
      = make_absolute_url "//cdn.example.com/x.png" Canned.example_url.
Proof.
  intros D.
  destruct (make_absolute_url_fixed (D := D) "https://example.com/a"
              "http://other.org/") as (_ & Habs & _).
  destruct (make_absolute_url_fixed (D := D) "//cdn.example.com/x.png"
              Canned.example_url) as (_ & _ & Hrel).
  split; [exact (Habs (or_intror eq_refl))|].
  destruct (Hrel eq_refl) as [Heq Hidem].
  split; [exact Heq|]. exact (Hidem (or_intror eq_refl) "http://other.org/").
Defined.

(** ** Classification: values and failure *)

(** [determine_section_type] raises exactly when the class or the id
    attribute is present without a value, and the exception is the
    AttributeError of [.lower()]; otherwise it returns one of the nine
    section types. *)
Theorem determine_section_type_outcome `{D : Dom} (element : Node)
    (content : SectionContent.t) :
  ((∃ msg, determine_section_type element content = inl msg) ↔
   attributes element !! "class" = Some None
   ∨ attributes element !! "id" = Some None)
  ∧ (∀ msg, determine_section_type element content = inl msg →
            msg = "'NoneType' object has no attribute 'lower'")
  ∧ (∀ ty, determine_section_type element content = inr ty →
           ty ∈ SECTION_TYPES).
Proof.
  pose proof (determine_section_type_cases element content) as Hcases.
  destruct (determine_section_type element content) as [msg|ty].
  - destruct Hcases as [-> Hattr]. split; [|split].
    + split; [done|]. intros _. by eexists.
    + by intros msg [= <-].
    + done.
  - destruct Hcases as (Hty & Hclass & Hid). split; [|split].
    + split; [by intros [msg ?]|]. by intros [?|?].
    + done.
    + by intros ty' [= <-].
Qed.

Lemma determine_section_type_outcome_witness :
  let D := Canned.site in
  let content :=
    extract_section_content Canned.valueless_class_section Canned.example_url in
  determine_section_type Canned.valueless_class_section content
    = inl "'NoneType' object has no attribute 'lower'"
  ∧ determine_section_type Canned.faq_section content = inr "faq"
  ∧ "faq" ∈ SECTION_TYPES.
Proof.
  intros D content.
  destruct (determine_section_type_outcome (D := D)
              Canned.valueless_class_section content) as (Hraises & Hmsg & _).
  destruct (determine_section_type_outcome (D := D)
              Canned.faq_section content) as (_ & _ & Hty).
  destruct (proj2 Hraises (or_introl eq_refl)) as [msg Heq].
  split; [by rewrite Heq, (Hmsg msg Heq)|].
  split; [reflexivity|]. exact (Hty "faq" eq_refl).
Defined.

(** ** The scan as a whole *)

(** [extract_sections] raises, losing every section of the page, whenever
    some landmark with content has a class or id attribute without a
    value. *)
Theorem extract_sections_raises_on_valueless `{D : Dom} (tree : Node)
    (url : string) (element : Node) :
  element ∈ landmarks tree →
  ¬ empty_content (extract_section_content element url) →
  attributes element !! "class" = Some None
  ∨ attributes element !! "id" = Some None →
  ∃ msg, extract_sections tree url = inl msg.
Proof.
  intros Hin Hcontent Hattr.
  assert (Hscan : ∃ msg, primary_scan tree url = inl msg).
  { rewrite primary_scan_landmarks. apply efold_scan_raises.
    exists element. split; [done|]. split; [done|].
    by apply determine_section_type_raises. }
  destruct Hscan as [msg Hscan]. exists msg.
  unfold extract_sections. by rewrite Hscan.
Qed.

Lemma extract_sections_raises_on_valueless_witness :
  let D := Canned.site in
  ∃ msg, extract_sections Canned.page_valueless_class Canned.example_url = inl msg.
Proof.
  intros D.
  apply (extract_sections_raises_on_valueless (D := D)
           Canned.page_valueless_class Canned.example_url
           Canned.valueless_class_section).
  - apply list_elem_of_here.
  - intros (Htext & _). vm_compute in Htext. discriminate.
  - by left.
Defined.

(** The sections of a pass follow the scan: one per landmark with content,
    in scan order, or else the body alone; each carries the page url; and
    the result is empty exactly when the document has no body and no
    landmark with content. *)
Theorem extract_sections_in_scan_order `{D : Dom} (tree : Node) (url : string)
    (secs : list PageSection.t) :
  extract_sections tree url = inr secs →
  let contents :=
    filter (fun c => content_is_empty c = false)
      ((fun element => extract_section_content element url) <$> landmarks tree) in
  PageSection.content <$> secs =
    (match contents, css_first tree "body" with
     | [], Some body => [extract_section_content body url]
     | [], None => []
     | _, _ => contents
     end)
  ∧ Forall (fun s => PageSection.sourceUrl s = url) secs
  ∧ (secs = [] ↔ css_first tree "body" = None ∧ contents = []).
Proof.
  intros Hret contents.
  destruct (extract_sections_cases _ _ _ Hret)
    as (st & Hscan & Hcases).
  pose proof Hscan as Hcontents. rewrite primary_scan_landmarks in Hcontents.
  apply efold_scan_contents in Hcontents.
  change (PageSection.content <$> st.1 = contents) in Hcontents.
  clearbody contents.
  pose proof (primary_scan_origin _ _ _ Hscan) as Horigin.
  destruct Hcases as [[Hne ->]|[[Hnil (body & Hbody & ->)]|(Hnil & Hbody & ->)]].
  - rewrite Hcontents. destruct contents as [|c cs].
    + by destruct st.1.
    + split; [done|]. split.
      * eapply Forall_impl; [exact Horigin|].
        by intros s (element & ty & n & _ & _ & _ & ->).
      * split; [done|]. by intros [_ ?].
  - rewrite Hnil in Hcontents. cbn in Hcontents. subst contents. rewrite Hbody.
    split; [done|]. split; [by repeat constructor|].
    split; [done|]. by intros [? _].
  - rewrite Hnil in Hcontents. cbn in Hcontents. subst contents. rewrite Hbody.
    split; [done|]. split; [constructor|]. done.
Qed.

Lemma extract_sections_in_scan_order_witness :
  let D := Canned.site in
  let url := Canned.example_url in
  ∃ secs,
    extract_sections Canned.page_sections url = inr secs
    ∧ PageSection.content <$> secs =
        [extract_section_content Canned.pricing_table url;
         extract_section_content Canned.long_section url]
    ∧ Forall (fun s => PageSection.sourceUrl s = url) secs.
Proof.
  intros D url.
  destruct (extract_sections (D := D) Canned.page_sections url)
    as [msg|secs] eqn:Hret; [by vm_compute in Hret|].
  exists secs. split; [done|].
  destruct (extract_sections_in_scan_order (D := D) Canned.page_sections url
              secs Hret) as (Hcontents & Hurl & _).
  split; [exact Hcontents|exact Hurl].
Defined.

(** ** The merge, without assumptions on ids *)

Lemma replace_if_longer_lookup (sec : PageSection.t) (l : list PageSection.t)
    (i : nat) (x : PageSection.t) :
  l !! i = Some x →
  ∃ y, replace_if_longer sec l !! i = Some y
       ∧ PageSection.id y = PageSection.id x
       ∧ text_len x ≤ text_len y
       ∧ (y = x ∨ y = sec).
Proof.
  revert i. induction l as [|e l IH]; intros i Hi; [done|].
  cbn [replace_if_longer].
  destruct (decide (PageSection.id e = PageSection.id sec)) as [Heq|Hne].
  - destruct (text_len e <? text_len sec) eqn:Hlen.
    + destruct i as [|i]; cbn in *.
      * injection Hi as <-. exists sec. apply Nat.ltb_lt in Hlen.
        repeat split; [done|lia|by right].
      * exists x. repeat split; [done|lia|by left].
    + exists x. repeat split; [done|lia|by left].
  - destruct i as [|i]; cbn in *.
    + exists x. repeat split; [done|lia|by left].
    + by apply IH.
Qed.

Lemma replace_if_longer_elem (sec : PageSection.t) (l : list PageSection.t)
    (y : PageSection.t) :
  y ∈ replace_if_longer sec l → y ∈ l ∨ y = sec.
Proof.
  induction l as [|e l IH]; [by left|]. cbn [replace_if_longer].
  destruct (decide (PageSection.id e = PageSection.id sec)).
  - destruct (text_len e <? text_len sec); [|by left].
    intros [->|Hy]%elem_of_cons; [by right|]. left. by right.
  - intros [->|Hy]%elem_of_cons; [left; by left|].
    destruct (IH Hy) as [?|?]; [left; by right|by right].
Qed.

Lemma merge_fold_lookup (ids : gset string) (rendered acc : list PageSection.t)
    (i : nat) (x : PageSection.t) :
  acc !! i = Some x →
  ∃ y, foldl (merge_one ids) acc rendered !! i = Some y
       ∧ PageSection.id y = PageSection.id x
       ∧ text_len x ≤ text_len y
       ∧ (y = x ∨ y ∈ rendered).
Proof.
  revert acc x. induction rendered as [|sec rendered IH]; intros acc x Hi.
  - exists x. repeat split; [done|lia|by left].
  - cbn [foldl].
    assert (Hstep : ∃ z, merge_one ids acc sec !! i = Some z
                         ∧ PageSection.id z = PageSection.id x
                         ∧ text_len x ≤ text_len z
                         ∧ (z = x ∨ z = sec)).
    { unfold merge_one. destruct (decide (PageSection.id sec ∈ ids)).
      - by apply replace_if_longer_lookup.
      - exists x. split; [by apply lookup_app_l_Some|].
        repeat split; [lia|by left]. }
    destruct Hstep as (z & Hz & Hid & Hlen & Hfrom).
    destruct (IH _ _ Hz) as (y & Hy & Hid' & Hlen' & Hfrom').
    exists y. split; [done|]. split; [congruence|]. split; [lia|].
    destruct Hfrom' as [->|Hin]; [|right; by right].
    destruct Hfrom as [->| ->]; [by left|right; by left].
Qed.

Lemma merge_fold_elem (ids : gset string) (rendered acc : list PageSection.t)
    (y : PageSection.t) :
  y ∈ foldl (merge_one ids) acc rendered → y ∈ acc ∨ y ∈ rendered.
Proof.
  revert acc. induction rendered as [|sec rendered IH]; intros acc Hy; [by left|].
  cbn [foldl] in Hy. destruct (IH _ Hy) as [Hacc|Hin]; [|right; by right].
  unfold merge_one in Hacc. destruct (decide (PageSection.id sec ∈ ids)).
  - apply replace_if_longer_elem in Hacc as [?| ->]; [by left|right; by left].
  - apply elem_of_app in Hacc as [?|Hs]; [by left|].
    apply list_elem_of_singleton in Hs as ->. right; by left.
Qed.

Lemma merge_sections_extends (static rendered : list PageSection.t) :
  extends_sections static (merge_sections static rendered).
Proof.
  intros i x Hi. unfold merge_sections.
  destruct (merge_fold_lookup (list_to_set (PageSection.id <$> static))
              rendered static i x Hi) as (y & Hy & Hid & Hlen & _).
  by exists y.
Qed.

(** Whatever the two lists are, the merge keeps every existing section's
    position and id and never shortens its text: the entry there is the
    existing section or a rendered one with a text at least as long; and
    every section of the result is an existing or a rendered one. *)
Theorem merge_never_shortens (static rendered : list PageSection.t) :
  (∀ i x, static !! i = Some x →
     ∃ y, merge_sections static rendered !! i = Some y
          ∧ PageSection.id y = PageSection.id x
          ∧ text_len x ≤ text_len y
          ∧ (y = x ∨ y ∈ rendered))
  ∧ (∀ y, y ∈ merge_sections static rendered → y ∈ static ∨ y ∈ rendered).
Proof.
  split.
  - intros i x Hi. by apply merge_fold_lookup.
  - intros y Hy. by apply merge_fold_elem in Hy.
Qed.

Lemma merge_never_shortens_witness :
  let short := Canned.text_section "section-0" "section" "short" in
  let long :=
    Canned.text_section "section-0" "section" "much longer extracted text" in
  [short] !! 0 = Some short
  ∧ ∃ y, merge_sections [short] [long; long] !! 0 = Some y
         ∧ PageSection.id y = PageSection.id short
         ∧ text_len short ≤ text_len y
         ∧ (y = short ∨ y ∈ [long; long]).
Proof.
  intros short long.
  assert (Hi : [short] !! 0 = Some short) by reflexivity.
  split; [exact Hi|].
  exact (proj1 (merge_never_shortens [short] [long; long]) 0 short Hi).
Defined.

Lemma merge_fold_fresh (acc rendered : list PageSection.t) :
  foldl (merge_one ∅) acc rendered = acc ++ rendered.
Proof.
  revert acc. induction rendered as [|sec rendered IH]; intros acc.
  - by rewrite app_nil_r.
  - cbn [foldl]. unfold merge_one at 2.
    rewrite decide_False by apply not_elem_of_empty.
    rewrite IH. by rewrite <- app_assoc.
Qed.

Lemma filter_none {A} (P : A → Prop) `{!∀ x, Decision (P x)} (l : list A) :
  (∀ x, x ∈ l → ¬ P x) → filter P l = [].
Proof.
  induction l as [|x l IH]; intros Hl; [done|].
  rewrite filter_cons, decide_False by (apply Hl; by left).
  apply IH. intros y Hy. apply Hl. by right.
Qed.

(** Merging into nothing gives the rendered sections as they are; merging
    nothing changes nothing; and merging the sections of a pass into
    themselves changes nothing. *)
Theorem merge_sections_neutral `{D : Dom} (tree : Node) (url : string)
    (secs rendered : list PageSection.t) :
  merge_sections [] rendered = rendered
  ∧ merge_sections secs [] = secs
  ∧ (extract_sections tree url = inr secs → merge_sections secs secs = secs).
Proof.
  split; [|split].
  - unfold merge_sections. cbn [fmap list_fmap list_to_set foldr].
    apply merge_fold_fresh.
  - done.
  - intros Hret. pose proof (extract_sections_NoDup _ _ _ Hret) as Hnd.
    rewrite merge_sections_eq by done.
    assert (Hnew : new_sections secs secs = []).
    { apply filter_none. intros x Hx Hfresh. apply Hfresh.
      by apply list_elem_of_fmap_2. }
    rewrite Hnew, app_nil_r.
    rewrite <- (list_fmap_id secs) at 3. apply list_fmap_ext.
    intros i x Hx. unfold merged_variant.
    rewrite lookup_id_NoDup by (by eauto using list_elem_of_lookup_2).
    by rewrite Nat.ltb_irrefl.
Qed.

Lemma merge_sections_neutral_witness :
  let D := Canned.site in
  let url := Canned.example_url in
  let secs := [landmark_section url Canned.longer_section "section" 0;
               landmark_section url Canned.faq_section "faq" 0] in
  extract_sections Canned.page_rendered url = inr secs
  ∧ merge_sections secs secs = secs.
Proof.
  intros D url secs.
  assert (Hret : extract_sections (D := D) Canned.page_rendered url = inr secs)
    by (vm_compute; reflexivity).
  split; [exact Hret|].
  exact (proj2 (proj2 (merge_sections_neutral (D := D) Canned.page_rendered url
                         secs [])) Hret).
Defined.

(** For the sections of a static pass (or none) and those of a render
    pass, the ids of the merged result are the static ids followed by the
    new rendered ids, and no id occurs twice. *)
Theorem merge_sections_ids `{D : Dom} (url : string)
    (static rendered : list PageSection.t) :
  static = [] ∨ (∃ tree, extract_sections tree url = inr static) →
  (∃ tree, extract_sections tree url = inr rendered) →
  PageSection.id <$> merge_sections static rendered =
    (PageSection.id <$> static)
    ++ (PageSection.id <$> new_sections static rendered)
  ∧ NoDup (PageSection.id <$> merge_sections static rendered).
Proof.
  intros Hstatic [tree Hrendered].
  assert (Hnd : NoDup (PageSection.id <$> static)).
  { destruct Hstatic as [->|[tree' Hstatic]]; [constructor|].
    by eapply extract_sections_NoDup. }
  assert (Hnd' : NoDup (PageSection.id <$> rendered))
    by (by eapply extract_sections_NoDup).
  rewrite merge_sections_eq by done.
  assert (Hids : PageSection.id <$> (merged_variant rendered <$> static)
                 = PageSection.id <$> static).
  { rewrite <- list_fmap_compose. apply list_fmap_ext.
    intros i x _. apply merged_variant_id. }
  rewrite fmap_app, Hids. split; [done|].
  apply NoDup_app. split; [done|]. split.
  - intros x Hx Hin. apply list_elem_of_fmap in Hin as (sec & -> & Hsec).
    by apply list_elem_of_filter in Hsec as [Hfresh _].
  - eapply sublist_NoDup; [exact Hnd'|].
    apply fmap_sublist, sublist_filter.
Qed.

Lemma merge_sections_ids_witness :
  let D := Canned.site in
  let url := Canned.example_url in
  let short := landmark_section url Canned.short_section "section" 0 in
  let long := landmark_section url Canned.longer_section "section" 0 in
  let faq := landmark_section url Canned.faq_section "faq" 0 in
  PageSection.id <$> merge_sections [short] [long; faq] = ["section-0"; "faq-0"]
  ∧ NoDup (PageSection.id <$> merge_sections [short] [long; faq]).
Proof.
  intros D url short long faq.
  assert (Hstatic : extract_sections (D := D) Canned.page_static url
                    = inr [short]) by (vm_compute; reflexivity).
  assert (Hrendered : extract_sections (D := D) Canned.page_rendered url
                      = inr [long; faq]) by (vm_compute; reflexivity).
  split; [vm_compute; reflexivity|].
  exact (proj2 (merge_sections_ids (D := D) url [short] [long; faq]
                  (or_intror (ex_intro _ _ Hstatic)) (ex_intro _ _ Hrendered))).
Defined.

(** ** Words and labels *)

Lemma str_app_assoc (a b c : string) : (a +:+ b) +:+ c = a +:+ b +:+ c.
Proof.
  induction a as [|x a IH]; [done|]. rewrite !str_app_cons. by rewrite IH.
Qed.

Lemma str_app_nil_r (a : string) : a +:+ "" = a.
Proof. induction a as [|x a IH]; [done|]. rewrite str_app_cons. by rewrite IH. Qed.

Lemma space_free_app (a b : string) :
  space_free (a +:+ b) = space_free a && space_free b.
Proof.
  induction a as [|x a IH]; [done|]. rewrite str_app_cons. cbn [space_free].
  rewrite IH. by rewrite andb_assoc.
Qed.

Lemma split_go_word (cur w rest : string) :
  space_free w = true →
  Py.split_go cur (w +:+ rest) = Py.split_go (cur +:+ w) rest.
Proof.
  revert cur. induction w as [|c w IH]; intros cur Hw.
  - by rewrite str_app_nil, str_app_nil_r.
  - cbn [space_free] in Hw. apply andb_true_iff in Hw as [Hc Hw].
    apply negb_true_iff in Hc. rewrite str_app_cons. cbn [Py.split_go].
    rewrite Hc, (IH _ Hw), str_app_assoc. done.
Qed.

Lemma split_go_words (cur s : string) :
  space_free cur = true → Forall is_word (Py.split_go cur s).
Proof.
  revert cur. induction s as [|c s IH]; intros cur Hcur; cbn [Py.split_go].
  - destruct (Py.truthy cur) eqn:Ht; [|constructor].
    constructor; [|constructor]. split; [by apply truthy_true|done].
  - destruct (Py.is_space c) eqn:Hc.
    + apply Forall_app. split; [|by apply IH].
      destruct (Py.truthy cur) eqn:Ht; [|constructor].
      constructor; [|constructor]. split; [by apply truthy_true|done].
    + apply IH. rewrite space_free_app, Hcur. cbn. by rewrite Hc.
Qed.

(** [split] gives words, and undoes [join] on words. *)
Lemma split_words (s : string) : Forall is_word (Py.split s).
Proof. by apply split_go_words. Qed.

Lemma split_join_words (ws : list string) :
  Forall is_word ws → Py.split (Py.join " " ws) = ws.
Proof.
  unfold Py.split. induction ws as [|w ws IH]; intros Hws; [done|].
  apply Forall_cons in Hws as [[Hne Hw] Hws].
  destruct ws as [|w' ws].
  - cbn [Py.join]. rewrite <- (str_app_nil_r w) at 1.
    rewrite split_go_word by done. cbn [Py.split_go].
    rewrite str_app_nil. by apply truthy_true in Hne as ->.
  - change (Py.join " " (w :: w' :: ws))
      with (w +:+ " " +:+ Py.join " " (w' :: ws)).
    rewrite split_go_word by done. rewrite str_app_nil.
    change (" " +:+ Py.join " " (w' :: ws))
      with (String " " (Py.join " " (w' :: ws))).
    cbn [Py.split_go]. change (Py.is_space " ") with true. cbn iota.
    apply truthy_true in Hne as ->. cbn [app]. by rewrite (IH Hws).
Qed.


(** [split] cuts at the next-line and no-break-space characters as it
    does at a space. *)
Example split_at_no_break_space :
  Py.split ("one" +:+ String (ascii_of_nat 160) "two"
            +:+ String (ascii_of_nat 133) " three")
  = ["one"; "two"; "three"].
Proof. vm_compute. reflexivity. Qed.

(** A label is the first heading cut to 50 characters; else the non-empty
    aria-label cut to 50 characters; else the first seven words of the
    text joined by single spaces, which [split] gives back; else the
    capitalized tag of the element, or of the word Section for an element
    without tag, followed by Section. *)
Theorem generate_label_shape `{D : Dom} (element : Node)
    (content : SectionContent.t) :
  let label := generate_label element content in
  let aria := Py.get (attributes element) "aria-label" "" in
  let words := take 7 (Py.split (SectionContent.text content)) in
  let tag :=
    match node_tag element with
    | Some t => if Py.truthy t then t else "Section"
    | None => "Section"
    end in
  (∀ h rest, SectionContent.headings content = h :: rest →
     label = Py.take 50 h ∧ Py.len label ≤ 50)
  ∧ (SectionContent.headings content = [] → Py.truthy_opt aria = true →
     label = Py.take 50 (Py.or_empty aria) ∧ Py.len label ≤ 50)
  ∧ (SectionContent.headings content = [] → Py.truthy_opt aria = false →
     SectionContent.text content ≠ "" →
     label = Py.join " " words
     ∧ Forall is_word words
     ∧ Py.split label = words
     ∧ length (Py.split label) ≤ 7)
  ∧ (SectionContent.headings content = [] → Py.truthy_opt aria = false →
     SectionContent.text content = "" →
     label = Py.capitalize tag +:+ " Section" ∧ tag ≠ "").
Proof.
  cbv zeta. unfold generate_label. split; [|split; [|split]].
  - intros h rest ->. split; [done|]. rewrite len_take. lia.
  - intros -> ->. split; [done|]. rewrite len_take. lia.
  - intros -> -> Htext. apply truthy_true in Htext as ->.
    assert (Hwords : Forall is_word
                       (take 7 (Py.split (SectionContent.text content))))
      by apply Forall_take_of, split_words.
    rewrite (split_join_words _ Hwords). split; [done|]. split; [done|].
    split; [done|]. rewrite length_take. lia.
  - intros -> -> ->. cbn [Py.truthy]. split; [done|].
    destruct (node_tag element) as [t|]; [|done].
    destruct (Py.truthy t) eqn:Ht; [|done]. by apply truthy_true.
Qed.

Lemma generate_label_shape_witness :
  let D := Canned.site in
  let element := Canned.leaf "article" [] "" "<article></article>" in
  let content :=
    SectionContent.mk []
      ("one  two" +:+ String (ascii_of_nat 160)
         "three four five six seven eight nine")
      [] [] [] [] in
  generate_label element content = "one two three four five six seven"
  ∧ Py.split (generate_label element content)
      = take 7 (Py.split (SectionContent.text content))
  ∧ generate_label element (SectionContent.mk [] "" [] [] [] [])
      = "Article Section".
Proof.
  intros D element content.
  destruct (generate_label_shape (D := D) element content)
    as (_ & _ & Hwords & _).
  destruct (generate_label_shape (D := D) element
              (SectionContent.mk [] "" [] [] [] []))
    as (_ & _ & _ & Htag).
  assert (Htext : SectionContent.text content ≠ "")
    by (vm_compute; discriminate).
  destruct (Hwords eq_refl eq_refl Htext) as (Hlabel & _ & Hsplit & _).
  split; [rewrite Hlabel; vm_compute; reflexivity|]. split; [exact Hsplit|].
  rewrite (proj1 (Htag eq_refl eq_refl eq_refl)). vm_compute. reflexivity.
Defined.

(** ** Limits of the render pass *)

Lemma extends_sections_refl (l : list PageSection.t) : extends_sections l l.
Proof. intros i x Hi. exists x. repeat split; [done|lia]. Qed.

Lemma extends_sections_trans (a b c : list PageSection.t) :
  extends_sections a b → extends_sections b c → extends_sections a c.
Proof.
  intros Hab Hbc i x Hi.
  destruct (Hab i x Hi) as (y & Hy & Hid & Hlen).
  destruct (Hbc i y Hy) as (z & Hz & Hid' & Hlen').
  exists z. split; [done|]. split; [congruence|lia].
Qed.

Section RenderLimits.
Context `{D : Dom} `{B : Browser}.

Lemma grows_refl (s : JsState) : grows 0 0 0 true s s.
Proof.
  repeat split; try lia.
  - exists []. by rewrite app_nil_r.
  - exists []. by rewrite app_nil_r.
  - exists []. by rewrite app_nil_r.
  - apply extends_sections_refl.
Qed.

Lemma grows_trans (c c' sc sc' p p' : nat) (k k' : bool) (s s' s'' : JsState) :
  grows c sc p k s s' → grows c' sc' p' k' s' s'' →
  grows (c + c') (sc + sc') (p + p') (k && k') s s''.
Proof.
  intros ((lc & Hc & Hlc & Hsel) & [Hsc1 Hsc2] & (lp & Hp & Hlp)
          & (le & He & Hle) & Hsecs & Hmeta)
         ((lc' & Hc' & Hlc' & Hsel') & [Hsc1' Hsc2'] & (lp' & Hp' & Hlp')
          & (le' & He' & Hle') & Hsecs' & Hmeta').
  split; [|split; [|split; [|split; [|split]]]].
  - exists (lc ++ lc'). rewrite Hc', Hc, app_assoc, length_app.
    split; [done|]. split; [lia|]. by apply Forall_app.
  - lia.
  - exists (lp ++ lp'). rewrite Hp', Hp, app_assoc, length_app.
    split; [done|lia].
  - exists (le ++ le'). rewrite He', He, app_assoc.
    split; [done|]. by apply Forall_app.
  - by eapply extends_sections_trans.
  - intros [-> ->]%andb_true_iff. rewrite Hmeta', Hmeta; done.
Qed.

Lemma grows_weaken (c c' sc sc' p p' : nat) (k k' : bool) (s s' : JsState) :
  c ≤ c' → sc ≤ sc' → p ≤ p' → (k' = true → k = true) →
  grows c sc p k s s' → grows c' sc' p' k' s s'.
Proof.
  intros Hc Hsc Hp Hk ((lc & Hclicks & Hlc & Hsel) & [Hsc1 Hsc2]
                       & (lp & Hpages & Hlp) & Herr & Hsecs & Hmeta).
  split; [|split; [|split; [|split; [|split]]]]; try done.
  - exists lc. split; [done|]. split; [lia|done].
  - lia.
  - exists lp. split; [done|lia].
  - intros Hk'. by apply Hmeta, Hk.
Qed.

Lemma rw_weaken {A} (c c' sc sc' p p' : nat) (k k' : bool) (m : M A) :
  runs_within c sc p k m →
  c ≤ c' → sc ≤ sc' → p ≤ p' → (k' = true → k = true) →
  runs_within c' sc' p' k' m.
Proof. intros Hm ???? s. by eapply grows_weaken. Qed.

Lemma rw_ret {A} (a : A) : runs_within 0 0 0 true (retM a).
Proof. intros s. apply grows_refl. Qed.

Lemma rw_bind {A C} (c c' sc sc' p p' : nat) (k k' : bool) (m : M A)
    (f : A → M C) :
  runs_within c sc p k m → (∀ a, runs_within c' sc' p' k' (f a)) →
  runs_within (c + c') (sc + sc') (p + p') (k && k') (bindM m f).
Proof.
  intros Hm Hf s. unfold bindM. specialize (Hm s).
  destruct (m s) as [[e|a] s'].
  - eapply grows_weaken; [| | | |exact Hm]; try lia.
    by intros [-> _]%andb_true_iff.
  - eapply grows_trans; [exact Hm|apply Hf].
Qed.

Lemma rw_try {A} (c c' sc sc' p p' : nat) (k k' : bool) (m : M A)
    (handler : string → M A) :
  runs_within c sc p k m → (∀ e, runs_within c' sc' p' k' (handler e)) →
  runs_within (c + c') (sc + sc') (p + p') (k && k') (try_except m handler).
Proof.
  intros Hm Hh s. unfold try_except. specialize (Hm s).
  destruct (m s) as [[e|a] s'].
  - eapply grows_trans; [exact Hm|apply Hh].
  - eapply grows_weaken; [| | | |exact Hm]; try lia.
    by intros [-> _]%andb_true_iff.
Qed.

Lemma rw_call {A} (op : World → Exc A * World) : runs_within 0 0 0 true (call op).
Proof.
  intros s. unfold call. destruct (op (world s)) as [r w]. cbn.
  repeat split; cbn; try lia.
  - exists []. by rewrite app_nil_r.
  - exists []. by rewrite app_nil_r.
  - exists []. by rewrite app_nil_r.
  - apply extends_sections_refl.
Qed.

Lemma rw_lift {A} (r : Exc A) : runs_within 0 0 0 true (lift r).
Proof. intros s. apply grows_refl. Qed.

Lemma rw_get_sections : runs_within 0 0 0 true get_sections.
Proof. intros s. apply grows_refl. Qed.

Lemma rw_get_url : runs_within 0 0 0 true get_url.
Proof. intros s. apply grows_refl. Qed.

Lemma rw_append_click (selector : string) :
  selector ∈ INTERACTION_SELECTORS →
  runs_within 1 0 0 true (append_click selector).
Proof.
  intros Hsel s. cbn. repeat split; cbn; try lia.
  - exists [selector]. split; [done|]. split; [done|]. by constructor.
  - exists []. by rewrite app_nil_r.
  - exists []. by rewrite app_nil_r.
  - apply extends_sections_refl.
Qed.

Lemma rw_incr_scrolls : runs_within 0 1 0 true incr_scrolls.
Proof.
  intros s. cbn. repeat split; cbn; try lia.
  - exists []. by rewrite app_nil_r.
  - exists []. by rewrite app_nil_r.
  - exists []. by rewrite app_nil_r.
  - apply extends_sections_refl.
Qed.

Lemma rw_append_page (url : string) : runs_within 0 0 1 true (append_page url).
Proof.
  intros s. cbn. repeat split; cbn; try lia.
  - exists []. by rewrite app_nil_r.
  - by exists [url].
  - exists []. by rewrite app_nil_r.
  - apply extends_sections_refl.
Qed.

Lemma rw_append_error (prefix text phase : string) :
  (prefix, phase) ∈ RENDER_ERROR_KINDS →
  runs_within 0 0 0 true (append_error (prefix +:+ Py.take 50 text) phase).
Proof.
  intros Hkind s. cbn. repeat split; cbn; try lia.
  - exists []. by rewrite app_nil_r.
  - exists []. by rewrite app_nil_r.
  - eexists. split; [done|]. constructor; [|constructor]. by exists prefix, text.
  - apply extends_sections_refl.
Qed.

Lemma rw_set_metadata (m : MetaData.t) : runs_within 0 0 0 false (set_metadata m).
Proof.
  intros s. cbn. repeat split; cbn; try lia; try done.
  - exists []. by rewrite app_nil_r.
  - exists []. by rewrite app_nil_r.
  - exists []. by rewrite app_nil_r.
  - apply extends_sections_refl.
Qed.

Lemma rw_merge (js_sections : list PageSection.t) :
  runs_within 0 0 0 true
    (bindM get_sections (fun secs => set_sections (merge_sections secs js_sections))).
Proof.
  intros s. cbn. repeat split; cbn; try lia.
  - exists []. by rewrite app_nil_r.
  - exists []. by rewrite app_nil_r.
  - exists []. by rewrite app_nil_r.
  - apply merge_sections_extends.
Qed.

End RenderLimits.

Section RenderLoops.
Context `{D : Dom} `{B : Browser}.

Lemma rw_for_each {A} (c sc p : nat) (k : bool) (l : list A) (body : A → M unit) :
  (∀ x, x ∈ l → runs_within c sc p k (body x)) →
  runs_within (length l * c) (length l * sc) (length l * p) k (for_each l body).
Proof.
  induction l as [|x l IH]; intros Hbody; cbn [for_each].
  - eapply rw_weaken; [apply rw_ret| | | |]; cbn; (lia || done).
  - eapply rw_weaken;
      [apply rw_bind; [apply Hbody; by left|intros _; apply IH]| | | |].
    + intros y Hy. apply Hbody. by right.
    + cbn. lia.
    + cbn. lia.
    + cbn. lia.
    + by intros ->.
Qed.

Lemma rw_for_each_take {A} (n c sc p : nat) (k : bool) (l : list A)
    (body : A → M unit) :
  (∀ x, runs_within c sc p k (body x)) →
  runs_within (n * c) (n * sc) (n * p) k (for_each (take n l) body).
Proof.
  intros Hbody.
  eapply rw_weaken; [apply rw_for_each; intros x _; apply Hbody| | | |done];
    rewrite length_take; apply Nat.mul_le_mono_r; lia.
Qed.

Lemma rw_for_range (n c sc p : nat) (k : bool) (body : M unit) :
  runs_within c sc p k body →
  runs_within (n * c) (n * sc) (n * p) k (for_range n body).
Proof.
  intros Hbody. induction n as [|n IH]; cbn [for_range].
  - eapply rw_weaken; [apply rw_ret| | | |]; cbn; (lia || done).
  - eapply rw_weaken; [apply rw_bind; [exact Hbody|intros _; exact IH]| | | |];
      cbn; try lia. by intros ->.
Qed.

Lemma rw_for_range_break (n c sc p : nat) (k : bool) (body : M bool) :
  runs_within c sc p k body →
  runs_within (n * c) (n * sc) (n * p) k (for_range_break n body).
Proof.
  intros Hbody. induction n as [|n IH]; cbn [for_range_break].
  - eapply rw_weaken; [apply rw_ret| | | |]; cbn; (lia || done).
  - eapply rw_weaken; [apply rw_bind; [exact Hbody|]| | | |].
    + intros [|]; [exact IH|].
      eapply rw_weaken; [apply rw_ret| | | |]; (lia || done).
    + cbn. lia.
    + cbn. lia.
    + cbn. lia.
    + by intros ->.
Qed.

Lemma rw_if {A} (c c' sc sc' p p' : nat) (k k' : bool) (b : bool) (m1 m2 : M A) :
  runs_within c sc p k m1 → runs_within c' sc' p' k' m2 →
  runs_within (c + c') (sc + sc') (p + p') (k && k') (if b then m1 else m2).
Proof.
  intros H1 H2. destruct b.
  - eapply rw_weaken; [exact H1| | | |]; try lia. by intros [-> _]%andb_true_iff.
  - eapply rw_weaken; [exact H2| | | |]; try lia. by intros [_ ->]%andb_true_iff.
Qed.

Lemma rw_match_option {A X} (c c' sc sc' p p' : nat) (k k' : bool)
    (o : option X) (f : X → M A) (m : M A) :
  (∀ x, runs_within c sc p k (f x)) → runs_within c' sc' p' k' m →
  runs_within (c + c') (sc + sc') (p + p') (k && k')
    (match o with Some x => f x | None => m end).
Proof.
  intros H1 H2. destruct o.
  - eapply rw_weaken; [apply H1| | | |]; try lia. by intros [-> _]%andb_true_iff.
  - eapply rw_weaken; [exact H2| | | |]; try lia. by intros [_ ->]%andb_true_iff.
Qed.

End RenderLoops.

(** One step of the analysis of the limits of a statement. *)
Ltac rw_step :=
  match goal with
  | |- runs_within _ _ _ _ (bindM get_sections _) => apply rw_merge
  | |- runs_within _ _ _ _ (bindM _ _) => eapply rw_bind; [|intros ?]
  | |- runs_within _ _ _ _ (try_except _ _) => eapply rw_try; [|intros ?]
  | |- runs_within _ _ _ _ (for_each (take _ _) _) =>
      eapply rw_for_each_take; intros ?
  | |- runs_within _ _ _ _ (for_each _ _) => eapply rw_for_each; intros ? ?
  | |- runs_within _ _ _ _ (for_range _ _) => eapply rw_for_range
  | |- runs_within _ _ _ _ (for_range_break _ _) => eapply rw_for_range_break
  | |- runs_within _ _ _ _ (if _ then _ else _) => eapply rw_if
  | |- runs_within _ _ _ _ (match _ with Some _ => _ | None => _ end) =>
      eapply rw_match_option; [intros ?|]
  | |- runs_within _ _ _ _ (retM _) => apply rw_ret
  | |- runs_within _ _ _ _ (call _) => apply rw_call
  | |- runs_within _ _ _ _ (lift _) => apply rw_lift
  | |- runs_within _ _ _ _ get_url => apply rw_get_url
  | |- runs_within _ _ _ _ incr_scrolls => apply rw_incr_scrolls
  | |- runs_within _ _ _ _ (append_page _) => apply rw_append_page
  | |- runs_within _ _ _ _ (set_metadata _) => apply rw_set_metadata
  | |- runs_within _ _ _ _ (append_click _) =>
      apply rw_append_click; unfold INTERACTION_SELECTORS;
      apply elem_of_app; auto
  | |- runs_within _ _ _ _ (append_error _ _) =>
      apply rw_append_error; apply (bool_decide_unpack _); vm_compute; exact I
  end.

(** The limits of a statement, from those its parts add up to. *)
Ltac rw_limits :=
  eapply rw_weaken;
  [repeat rw_step
  |vm_compute; lia
  |vm_compute; lia
  |vm_compute; lia
  |try (intros _; reflexivity); try done].

Section RenderStages.
Context `{D : Dom} `{B : Browser}.

Lemma rw_click_tabs : runs_within 15 0 0 true click_tabs.
Proof. unfold click_tabs. rw_limits. Qed.

Lemma rw_click_load_more : runs_within 24 0 0 true click_load_more.
Proof. unfold click_load_more. rw_limits. Qed.

Lemma rw_perform_scrolls (n : nat) : runs_within 0 n 0 true (perform_scrolls n).
Proof.
  unfold perform_scrolls.
  eapply rw_weaken; [repeat rw_step| | | |intros _; reflexivity]; cbn; lia.
Qed.

Lemma rw_find_next_link (visited_urls selectors : list string) :
  runs_within 0 0 0 true (find_next_link visited_urls selectors).
Proof.
  induction selectors as [|selector rest IH]; cbn [find_next_link];
    [apply rw_ret|].
  eapply rw_weaken;
    [eapply rw_bind;
       [repeat rw_step|intros [l|]; [apply rw_ret|exact IH]]
    | | | |intros _; reflexivity]; cbn; lia.
Qed.

Lemma rw_pagination_loop (n : nat) (visited_urls : list string) :
  runs_within 0 0 n true (pagination_loop n visited_urls).
Proof.
  revert visited_urls. induction n as [|n IH]; intros visited_urls;
    cbn [pagination_loop]; [apply rw_ret|].
  eapply rw_weaken;
    [repeat (rw_step || apply rw_find_next_link || apply IH)
    | | | |intros _; reflexivity]; cbn; lia.
Qed.

Lemma rw_follow_pagination (max_pages : nat) :
  runs_within 0 0 (max_pages - 1) true (follow_pagination max_pages).
Proof.
  unfold follow_pagination.
  eapply rw_weaken;
    [repeat (rw_step || apply rw_pagination_loop)
    | | | |intros _; reflexivity]; cbn; lia.
Qed.

Lemma rw_navigate (url : string) : runs_within 0 0 0 true (navigate url).
Proof. unfold navigate. rw_limits. Qed.

Lemma rw_parse_rendered (url : string) (existing_metadata : option MetaData.t)
    (html_content : string) :
  runs_within 0 0 0 (has_title existing_metadata)
    (parse_rendered url existing_metadata html_content).
Proof.
  unfold parse_rendered, has_title.
  assert (Htail : ∀ tree,
    runs_within 0 0 0 true
      (js_sections ←ₘ lift (extract_sections tree url);
       match js_sections with
       | [] => retM ()
       | _ :: _ =>
           sections ←ₘ get_sections;
           set_sections (merge_sections sections js_sections)
       end)).
  { intros tree.
    eapply rw_weaken;
      [eapply rw_bind; [apply rw_lift|intros [|x l]; [apply rw_ret|apply rw_merge]]
      | | | |done]; lia. }
  destruct existing_metadata as [m|];
    [destruct (Py.truthy (MetaData.title m)) eqn:Htitle|].
  - eapply rw_weaken;
      [eapply rw_try;
         [eapply rw_bind;
            [apply rw_lift
            |intros tree; eapply rw_bind; [apply rw_ret|intros _; apply Htail]]
         |intros e; rw_step]
      | | | |intros _; reflexivity]; lia.
  - eapply rw_weaken;
      [eapply rw_try;
         [eapply rw_bind;
            [apply rw_lift
            |intros tree; eapply rw_bind;
               [apply rw_set_metadata|intros _; apply Htail]]
         |intros e; rw_step]
      | | | |done]; lia.
  - eapply rw_weaken;
      [eapply rw_try;
         [eapply rw_bind;
            [apply rw_lift
            |intros tree; eapply rw_bind;
               [apply rw_set_metadata|intros _; apply Htail]]
         |intros e; rw_step]
      | | | |done]; lia.
Qed.

Lemma rw_js_scrape_body (url : string) (existing_metadata : option MetaData.t) :
  runs_within 39 3 2 (has_title existing_metadata)
    (js_scrape_body url existing_metadata).
Proof.
  unfold js_scrape_body.
  eapply rw_weaken;
    [repeat (rw_step || apply rw_navigate || apply rw_click_tabs
             || apply rw_click_load_more || apply rw_perform_scrolls
             || apply rw_follow_pagination || apply rw_parse_rendered)
    | | | |]; [cbn; lia|cbn; lia|cbn; lia|].
  intros ->. reflexivity.
Qed.

(** What [js_scrape] returns, against what it was given. *)
Lemma js_scrape_grows (url : string) (existing_metadata : option MetaData.t)
    (existing_sections : list PageSection.t) (w : World) :
  let r := js_scrape url existing_metadata existing_sections w in
  (∃ more, Interactions.pages r.2 = url :: more ∧ length more ≤ 2)
  ∧ length (Interactions.clicks r.2) ≤ 39
  ∧ Forall (fun sel => sel ∈ INTERACTION_SELECTORS) (Interactions.clicks r.2)
  ∧ Interactions.scrolls r.2 ≤ 3
  ∧ Forall render_error r.1.2
  ∧ extends_sections existing_sections r.1.1.2
  ∧ (has_title existing_metadata = true →
     Some r.1.1.1 = existing_metadata).
Proof.
  cbv zeta. unfold js_scrape. cbn [fst snd].
  set (s0 := mkJs w _ existing_sections _ []).
  destruct (rw_js_scrape_body url existing_metadata s0)
    as ((lc & Hc & Hlc & Hsel) & [_ Hsc] & (lp & Hp & Hlp)
        & (le & He & Hle) & Hsecs & Hmeta).
  cbn in Hc, Hsc, Hp, He, Hsecs, Hmeta.
  split; [by exists lp|]. rewrite Hc, He. cbn.
  split; [done|]. split; [done|]. split; [lia|]. split; [done|].
  split; [done|]. intros Htitle. rewrite (Hmeta Htitle).
  by destruct existing_metadata.
Qed.

End RenderStages.

(** ** Stages that swallow their failures *)

Section NeverRaises.
Context `{D : Dom} `{B : Browser}.

Lemma nr_ret {A} (a : A) : never_raises (retM a).
Proof. intros s. by exists a. Qed.

Lemma nr_bind {A C} (m : M A) (f : A → M C) :
  never_raises m → (∀ a, never_raises (f a)) → never_raises (bindM m f).
Proof.
  intros Hm Hf s. unfold bindM. destruct (Hm s) as [a Ha].
  destruct (m s) as [[e|a'] s']; [done|]. apply Hf.
Qed.

Lemma nr_try {A} (m : M A) (handler : string → M A) :
  (∀ e, never_raises (handler e)) → never_raises (try_except m handler).
Proof.
  intros Hh s. unfold try_except.
  destruct (m s) as [[e|a] s']; [apply Hh|by exists a].
Qed.

Lemma nr_append_error (message phase : string) :
  never_raises (append_error message phase).
Proof. intros s. by exists (). Qed.

Lemma nr_get_url : never_raises get_url.
Proof. intros s. by eexists. Qed.

Lemma nr_for_each {A} (l : list A) (body : A → M unit) :
  (∀ x, never_raises (body x)) → never_raises (for_each l body).
Proof.
  intros Hbody. induction l as [|x l IH]; cbn [for_each]; [apply nr_ret|].
  apply nr_bind; [apply Hbody|]. intros _. exact IH.
Qed.

Lemma nr_for_range_break (n : nat) (body : M bool) :
  never_raises body → never_raises (for_range_break n body).
Proof.
  intros Hbody. induction n as [|n IH]; cbn [for_range_break]; [apply nr_ret|].
  apply nr_bind; [exact Hbody|]. intros [|]; [exact IH|apply nr_ret].
Qed.

Lemma nr_find_next_link (visited_urls selectors : list string) :
  never_raises (find_next_link visited_urls selectors).
Proof.
  induction selectors as [|selector rest IH]; cbn [find_next_link];
    [apply nr_ret|].
  apply nr_bind; [apply nr_try; intros _; apply nr_ret|].
  intros [l|]; [apply nr_ret|exact IH].
Qed.

Lemma nr_pagination_loop (n : nat) (visited_urls : list string) :
  never_raises (pagination_loop n visited_urls).
Proof.
  revert visited_urls. induction n as [|n IH]; intros visited_urls;
    cbn [pagination_loop]; [apply nr_ret|].
  apply nr_bind; [apply nr_find_next_link|]. intros [link|]; [|apply nr_ret].
  apply nr_bind; [apply nr_try; intros _; apply nr_ret|]. intros v. apply IH.
Qed.

(** The interaction stages, the navigation and the parse of the rendered
    document never raise: whatever the browser and the parser do, each ends
    normally, its failures swallowed or recorded, so the stages after it
    still run. *)
Theorem interaction_stages_never_raise (url : string)
    (existing_metadata : option MetaData.t) (html_content : string)
    (scroll_count max_pages : nat) :
  never_raises click_tabs
  ∧ never_raises click_load_more
  ∧ never_raises (perform_scrolls scroll_count)
  ∧ never_raises (follow_pagination max_pages)
  ∧ never_raises (navigate url)
  ∧ never_raises (parse_rendered url existing_metadata html_content)
  ∧ never_raises (js_scrape_body url existing_metadata).
Proof.
  repeat split.
  - apply nr_for_each. intros selector. apply nr_try. intros e.
    apply nr_append_error.
  - apply nr_for_each. intros selector. apply nr_try. intros e.
    apply nr_append_error.
  - apply nr_try. intros e. apply nr_append_error.
  - apply nr_bind; [apply nr_get_url|]. intros first_url.
    apply nr_pagination_loop.
  - apply nr_try. intros e1. apply nr_try. intros e2.
    apply nr_bind; [apply nr_append_error|]. intros _. apply nr_ret.
  - apply nr_try. intros e. apply nr_append_error.
  - apply nr_try. intros e. apply nr_append_error.
Qed.

End NeverRaises.

(** ** What the render pass returns *)

(** The interactions log of [js_scrape] starts with the requested url and
    holds at most two more pages, at most three scrolls and at most 39
    clicks, each on a tab or load-more selector. *)
Theorem js_scrape_interaction_limits `{D : Dom} `{B : Browser} (url : string)
    (existing_metadata : option MetaData.t)
    (existing_sections : list PageSection.t) (w : World) :
  let log := (js_scrape url existing_metadata existing_sections w).2 in
  (∃ more, Interactions.pages log = url :: more ∧ length more ≤ 2)
  ∧ Interactions.scrolls log ≤ 3
  ∧ length (Interactions.clicks log) ≤ 39
  ∧ Forall (fun sel => sel ∈ TAB_SELECTORS ∨ sel ∈ LOAD_MORE_SELECTORS)
      (Interactions.clicks log).
Proof.
  destruct (js_scrape_grows url existing_metadata existing_sections w)
    as (Hpages & Hclicks & Hsel & Hscrolls & _).
  cbv zeta. split; [done|]. split; [done|]. split; [done|].
  eapply Forall_impl; [exact Hsel|]. intros sel Hin.
  by apply elem_of_app in Hin.
Qed.

(** Every error of [js_scrape] is one of six kinds: a fixed prefix followed
    by at most 50 characters of the exception text, with the phase of that
    prefix; so its phase is interaction, render or parse and its message
    has at most 69 characters. *)
Theorem js_scrape_error_kinds `{D : Dom} `{B : Browser} (url : string)
    (existing_metadata : option MetaData.t)
    (existing_sections : list PageSection.t) (w : World) :
  Forall (fun e =>
            render_error e
            ∧ ErrorItem.phase e ∈ ["interaction"; "render"; "parse"]
            ∧ Py.len (ErrorItem.message e) ≤ 69)
    (js_scrape url existing_metadata existing_sections w).1.2.
Proof.
  destruct (js_scrape_grows url existing_metadata existing_sections w)
    as (_ & _ & _ & _ & Herrors & _).
  eapply Forall_impl; [exact Herrors|].
  intros e Hkind. split; [exact Hkind|].
  destruct Hkind as (prefix & text & Hin & Hmsg).
  unfold RENDER_ERROR_KINDS in Hin. rewrite Hmsg, len_app, len_take.
  repeat (apply elem_of_cons in Hin as [[= -> Hphase]|Hin];
          [rewrite Hphase; split;
             [apply (bool_decide_unpack _); vm_compute; exact I
             |vm_compute Py.len; lia]|]).
  by apply elem_of_nil in Hin.
Qed.

(** ** The request as a whole *)

Section Request.
Context `{D : Dom} `{B : Browser} `{H : Http}.

(** What the static pass can return as errors: nothing, or one error of
    phase fetch or parse. *)
Lemma static_errors_cases (url : string) :
  static_errors (static_scrape url) = []
  ∨ ∃ message phase,
      static_errors (static_scrape url) = [ErrorItem.mk message phase]
      ∧ (phase = "fetch" ∨ phase = "parse").
Proof.
  unfold static_scrape, static_errors.
  destruct (client_get 30 true USER_AGENT url) as [html| |code|msg]; cbn.
  - destruct (static_parse html url) as [msg|[[m secs] needs]]; cbn.
    + right. eexists _, _. split; [done|by right].
    + by left.
  - right. eexists _, _. split; [done|by left].
  - right. eexists _, _. split; [done|by left].
  - right. eexists _, _. split; [done|by left].
Qed.

(** When the static pass does not ask for rendering it has recorded no
    error and found a section. *)
Lemma static_sufficient (url : string) :
  static_needs_js (static_scrape url) = false →
  static_errors (static_scrape url) = []
  ∧ static_sections (static_scrape url) ≠ [].
Proof.
  unfold static_scrape, static_needs_js, static_errors, static_sections.
  destruct (client_get 30 true USER_AGENT url) as [html| |code|msg]; cbn;
    try done.
  unfold static_parse.
  destruct (HTMLParser html) as [e|tree]; cbn [ebind]; [done|].
  destruct (extract_sections (remove_noise tree) url) as [e|secs];
    cbn [ebind ok]; [done|]. cbn [fst snd].
  destruct (bool_decide (secs = [])) eqn:Hnil; cbn [orb]; [done|].
  apply bool_decide_eq_false in Hnil. done.
Qed.

(** When the static pass does not ask for rendering, it has no error and
    at least one section, the browser is not used, and the result is the
    static metadata and sections with the initial interactions log and no
    error. *)
Theorem scrape_url_static_only (url : string) :
  static_needs_js (static_scrape url) = false →
  static_errors (static_scrape url) = []
  ∧ static_sections (static_scrape url) ≠ []
  ∧ ∀ scraped_at w,
      scrape_url scraped_at url w =
        ScrapeResult.mk url scraped_at
          (static_metadata (static_scrape url))
          (static_sections (static_scrape url))
          (Interactions.mk [] 0 [url]) [].
Proof.
  intros Hneeds. destruct (static_sufficient url Hneeds) as [Herrors Hsecs].
  split; [done|]. split; [done|]. intros scraped_at w.
  unfold scrape_url, static_needs_js, static_errors, static_sections,
    static_metadata in *.
  destruct (static_scrape url) as [[[[metadata sections] errors] html] needs_js].
  cbn [fst snd] in *. subst needs_js errors. cbn [orb].
  by rewrite bool_decide_eq_false_2.
Qed.

(** The errors of a result are the static errors followed, when the
    static pass asks for rendering, by the errors that [js_scrape] returns
    for the static sections and the static metadata (passed only when it
    has a title), and are the static errors alone otherwise; at most one
    error comes from the static pass; and every error has the phase fetch,
    parse, render or interaction. *)
Theorem scrape_url_errors (scraped_at url : string) (w : World) :
  let result := scrape_url scraped_at url w in
  let r := static_scrape url in
  let existing_metadata :=
    if Py.truthy (MetaData.title (static_metadata r))
    then Some (static_metadata r) else None in
  ScrapeResult.errors result =
    static_errors r
    ++ (if static_needs_js r
        then rendered_errors
               (js_scrape url existing_metadata (static_sections r) w)
        else [])
  ∧ length (static_errors r) ≤ 1
  ∧ Forall (fun e => ErrorItem.phase e
                     ∈ ["fetch"; "parse"; "render"; "interaction"])
      (ScrapeResult.errors result).
Proof.
  cbv zeta.
  assert (Hstatic : Forall (fun e => ErrorItem.phase e
                              ∈ ["fetch"; "parse"; "render"; "interaction"])
                      (static_errors (static_scrape url))
                    ∧ length (static_errors (static_scrape url)) ≤ 1).
  { destruct (static_errors_cases url) as [->|(message & phase & -> & Hphase)].
    - split; [constructor|cbn; lia].
    - split; [|cbn; lia]. constructor; [|constructor].
      destruct Hphase as [-> | ->]; cbn;
        apply (bool_decide_unpack _); vm_compute; exact I. }
  destruct Hstatic as [Hphases Hlen].
  pose proof (static_sufficient url) as Hsufficient.
  unfold scrape_url, static_errors, static_needs_js, static_sections,
    static_metadata, rendered_errors in *.
  destruct (static_scrape url) as [[[[metadata sections] errors] html] needs_js].
  cbn [fst snd] in *.
  assert (Hcond : needs_js || bool_decide (sections = []) = needs_js).
  { destruct needs_js; [done|]. destruct (Hsufficient eq_refl) as [_ Hne].
    cbn [orb]. by rewrite bool_decide_eq_false_2. }
  rewrite Hcond. destruct needs_js.
  - pose proof (js_scrape_grows url
      (if Py.truthy (MetaData.title metadata) then Some metadata else None)
      sections w) as (_ & _ & _ & _ & Hkinds & _).
    destruct (js_scrape url _ sections w) as [[[jm js] je] ji].
    cbn [fst snd ScrapeResult.errors] in *.
    split; [done|]. split; [done|].
    apply Forall_app. split; [done|].
    eapply Forall_impl; [exact Hkinds|].
    intros e (prefix & text & Hin & _). unfold RENDER_ERROR_KINDS in Hin.
    repeat (apply elem_of_cons in Hin as [[= _ ->]|Hin];
            [apply (bool_decide_unpack _); vm_compute; exact I|]).
    by apply elem_of_nil in Hin.
  - cbn [ScrapeResult.errors]. by rewrite app_nil_r.
Qed.

(** A result carries the requested url and the timestamp; its
    interactions log starts with the requested url and holds at most two
    more pages, at most three scrolls and at most 39 clicks. *)
Theorem scrape_url_interactions (scraped_at url : string) (w : World) :
  let result := scrape_url scraped_at url w in
  ScrapeResult.url result = url
  ∧ ScrapeResult.scrapedAt result = scraped_at
  ∧ (∃ more, Interactions.pages (ScrapeResult.interactions result) = url :: more
             ∧ length more ≤ 2)
  ∧ Interactions.scrolls (ScrapeResult.interactions result) ≤ 3
  ∧ length (Interactions.clicks (ScrapeResult.interactions result)) ≤ 39.
Proof.
  cbv zeta. unfold scrape_url.
  destruct (static_scrape url) as [[[[metadata sections] errors] html] needs_js].
  destruct (needs_js || bool_decide (sections = [])).
  - pose proof (js_scrape_grows url
      (if Py.truthy (MetaData.title metadata) then Some metadata else None)
      sections w) as (Hpages & Hclicks & _ & Hscrolls & _).
    destruct (js_scrape url _ sections w) as [[[jm js] je] ji].
    cbn [fst snd] in *. cbn. done.
  - cbn. split; [done|]. split; [done|].
    split; [exists []; split; [done|cbn; lia]|lia].
Qed.

(** The render pass never discards what the static pass found: every
    static section keeps its position and id in the result, with a text at
    least as long; a static metadata with a title is the metadata of the
    result; and otherwise the result has the static metadata or one with a
    title. *)
Theorem scrape_url_keeps_static (scraped_at url : string) (w : World) :
  let result := scrape_url scraped_at url w in
  let r := static_scrape url in
  extends_sections (static_sections r) (ScrapeResult.sections result)
  ∧ (MetaData.title (static_metadata r) ≠ "" →
     ScrapeResult.meta result = static_metadata r)
  ∧ (ScrapeResult.meta result = static_metadata r
     ∨ MetaData.title (ScrapeResult.meta result) ≠ "").
Proof.
  cbv zeta. unfold scrape_url, static_sections, static_metadata.
  destruct (static_scrape url) as [[[[metadata sections] errors] html] needs_js].
  cbn [fst snd].
  destruct (needs_js || bool_decide (sections = [])).
  - pose proof (js_scrape_grows url
      (if Py.truthy (MetaData.title metadata) then Some metadata else None)
      sections w) as (_ & _ & _ & _ & _ & Hsecs & Hmeta).
    destruct (js_scrape url _ sections w) as [[[jm js] je] ji].
    cbn [fst snd] in *. cbn [ScrapeResult.sections ScrapeResult.meta].
    split; [|split].
    + destruct js; [apply extends_sections_refl|done].
    + intros Htitle. apply truthy_true in Htitle. rewrite Htitle in Hmeta.
      injection (Hmeta Htitle) as ->. by rewrite Htitle.
    + destruct (Py.truthy (MetaData.title jm)) eqn:Hjm; [|by left].
      right. by apply truthy_true.
  - cbn. split; [apply extends_sections_refl|]. split; [done|by left].
Qed.

End Request.

Lemma scrape_url_static_only_witness :
  let D := Canned.site in
  let B := Canned.browser in
  let H := Canned.http (Response "sections") in
  let url := Canned.example_url in
  static_needs_js (static_scrape url) = false
  ∧ static_errors (static_scrape url) = []
  ∧ static_sections (static_scrape url) ≠ []
  ∧ ∀ scraped_at w,
      scrape_url scraped_at url w =
        ScrapeResult.mk url scraped_at
          (static_metadata (static_scrape url))
          (static_sections (static_scrape url))
          (Interactions.mk [] 0 [url]) [].
Proof.
  intros D B H url.
  assert (Hneeds : static_needs_js (static_scrape (D := D) (H := H) url) = false)
    by (vm_compute; reflexivity).
  split; [exact Hneeds|].
  exact (scrape_url_static_only (D := D) (B := B) (H := H) url Hneeds).
Defined.

(** ** Pages visited by the pagination *)

Section Pagination.
Context `{D : Dom} `{B : Browser}.

Lemma bindM_inr {A C} (m : M A) (f : A → M C) (s s' : JsState) (a : A) :
  m s = (inr a, s') → bindM m f s = f a s'.
Proof. intros Hm. unfold bindM. by rewrite Hm. Qed.

Lemma try_except_bind {A C} (m : M A) (f : A → M C) (handler : string → M C)
    (s : JsState) :
  try_except (bindM m f) handler s =
    match m s with
    | (inl e, s') => handler e s'
    | (inr a, s') => try_except (f a) handler s'
    end.
Proof. unfold try_except, bindM. by destruct (m s) as [[e|a] s']. Qed.

Lemma bindM_inv {A C} (m : M A) (f : A → M C) (s s' : JsState) (r : Exc C) :
  bindM m f s = (r, s') →
  (∃ e, m s = (inl e, s') ∧ r = inl e)
  ∨ ∃ a s1, m s = (inr a, s1) ∧ f a s1 = (r, s').
Proof.
  unfold bindM. destruct (m s) as [[e|a] s1]; intros Hrun.
  - left. exists e. by injection Hrun as <- <-.
  - right. by exists a, s1.
Qed.

Lemma try_except_inv {A} (m : M A) (handler : string → M A) (s s' : JsState)
    (r : Exc A) :
  try_except m handler s = (r, s') →
  (∃ a, m s = (inr a, s') ∧ r = inr a)
  ∨ ∃ e s1, m s = (inl e, s1) ∧ handler e s1 = (r, s').
Proof.
  unfold try_except. destruct (m s) as [[e|a] s1]; intros Hrun.
  - right. by exists e, s1.
  - left. exists a. by injection Hrun as <- <-.
Qed.

Lemma call_inv {A} (op : World → Exc A * World) (s s' : JsState) (r : Exc A) :
  call op s = (r, s') →
  ∃ w, op (world s) = (r, w)
       ∧ s' = mkJs w (metadata s) (sections s) (interactions s) (errors s).
Proof.
  unfold call. destruct (op (world s)) as [r' w]. intros [= <- <-].
  by exists w.
Qed.

(** What the search for the next link has seen when it ends on a link. *)
Lemma find_next_link_found (visited_urls selectors : list string)
    (s s' : JsState) (link : ElementHandle) :
  find_next_link visited_urls selectors s = (inr (Some link), s') →
  next_link_found visited_urls selectors link (world s').
Proof.
  revert s. induction selectors as [|selector rest IH]; intros s Hrun;
    cbn [find_next_link] in Hrun; [discriminate|].
  assert (Hrest : next_link_found visited_urls rest link (world s') →
                  next_link_found visited_urls (selector :: rest) link (world s')).
  { intros (sel & href & w0 & w1 & w2 & Hin & Hfacts).
    exists sel, href, w0, w1, w2. split; [by right|done]. }
  apply bindM_inv in Hrun as [(e & _ & [=])|(found & s1 & Htry & Hcont)].
  destruct found as [l|]; [|by apply Hrest, (IH s1)].
  injection Hcont as -> ->.
  apply try_except_inv in Htry as [(a & Hbody & [= <-])|(e & s2 & _ & [=])].
  apply bindM_inv in Hbody as [(e & _ & [=])|(queried & s2 & Hquery & Hbody)].
  destruct queried as [l|]; [|discriminate].
  apply bindM_inv in Hbody as [(e & _ & [=])|(visible & s3 & Hvisible & Hbody)].
  destruct visible; [|discriminate].
  apply bindM_inv in Hbody as [(e & _ & [=])|(href & s4 & Hhref & Hbody)].
  destruct (Py.truthy_opt href && bool_decide (Py.or_empty href ∉ visited_urls))
    eqn:Hcond; [|discriminate].
  injection Hbody as -> ->.
  apply andb_true_iff in Hcond as [Htruthy Hfresh].
  apply bool_decide_eq_true in Hfresh.
  apply call_inv in Hquery as (w1 & Hquery & ->).
  apply call_inv in Hvisible as (w2 & Hvisible & ->).
  apply call_inv in Hhref as (w3 & Hhref & ->).
  exists selector, href, (world s), w1, w2.
  split; [by left|]. done.
Qed.

(** One followed link: the visited urls gain at most the new location, and
    the pages log gains the same; a location gained is the url of the page
    after the click and the wait. *)
Lemma follow_link_visits (link : ElementHandle) (visited_urls : list string)
    (s : JsState) :
  NoDup visited_urls →
  ∃ new s',
    try_except
      (call (handle_click link) ;ₘ
       try_except (call (page_wait_for_load_state "networkidle" 5000%N))
         (fun _ => call (page_wait_for_timeout 2000%N)) ;ₘ
       current_url ←ₘ get_url;
       if bool_decide (current_url ∉ visited_urls) then
         append_page current_url ;ₘ
         retM (visited_urls ++ [current_url])
       else retM visited_urls)
      (fun _ => retM visited_urls) s = (inr (visited_urls ++ new), s')
    ∧ Interactions.pages (interactions s')
      = Interactions.pages (interactions s) ++ new
    ∧ NoDup (visited_urls ++ new)
    ∧ (new = []
       ∨ ∃ w1 w2, handle_click link (world s) = (inr (), w1)
                  ∧ settles w1 w2
                  ∧ new = [page_url w2]
                  ∧ page_url w2 ∉ visited_urls).
Proof.
  intros Hnd.
  assert (Hnone : ∀ s', Interactions.pages (interactions s')
                        = Interactions.pages (interactions s) →
    ∃ new s'',
      (inr visited_urls : Exc (list string), s') = (inr (visited_urls ++ new), s'')
      ∧ Interactions.pages (interactions s'')
        = Interactions.pages (interactions s) ++ new
      ∧ NoDup (visited_urls ++ new)
      ∧ (new = []
         ∨ ∃ w1 w2, handle_click link (world s) = (inr (), w1)
                    ∧ settles w1 w2
                    ∧ new = [page_url w2]
                    ∧ page_url w2 ∉ visited_urls)).
  { intros s' Hs'. exists [], s'. rewrite !app_nil_r. repeat split; try done.
    by left. }
  assert (Hafter : ∀ w1 w2,
    handle_click link (world s) = (inr (), w1) →
    settles w1 w2 →
    ∃ new s'',
      try_except
        (current_url ←ₘ get_url;
         if bool_decide (current_url ∉ visited_urls) then
           append_page current_url ;ₘ
           retM (visited_urls ++ [current_url])
         else retM visited_urls)
        (fun _ => retM visited_urls)
        (mkJs w2 (metadata s) (sections s) (interactions s) (errors s))
      = (inr (visited_urls ++ new), s'')
      ∧ Interactions.pages (interactions s'')
        = Interactions.pages (interactions s) ++ new
      ∧ NoDup (visited_urls ++ new)
      ∧ (new = []
         ∨ ∃ w1 w2, handle_click link (world s) = (inr (), w1)
                    ∧ settles w1 w2
                    ∧ new = [page_url w2]
                    ∧ page_url w2 ∉ visited_urls)).
  { intros w1 w2 Hclick Hwait.
    unfold try_except, bindM, get_url, append_page, retM. cbn.
    destruct (bool_decide (page_url w2 ∉ visited_urls)) eqn:Hfresh; cbn.
    - apply bool_decide_eq_true in Hfresh.
      exists [page_url w2]. eexists. split; [done|]. split; [done|].
      split; [|right; by exists w1, w2]. apply NoDup_app. split; [done|].
      split; [|apply NoDup_singleton].
      intros x Hx ->%list_elem_of_singleton. done.
    - exists []. eexists. rewrite !app_nil_r. split; [done|].
      split; [done|]. split; [done|by left]. }
  rewrite try_except_bind.
  destruct (call (handle_click link) s) as [r1 s1] eqn:Hclick.
  apply call_inv in Hclick as (w1 & Hclick & ->).
  destruct r1 as [e|[]]; [by apply Hnone|].
  rewrite try_except_bind.
  destruct (try_except (call (page_wait_for_load_state "networkidle" 5000%N))
              (fun _ => call (page_wait_for_timeout 2000%N))
              (mkJs w1 (metadata s) (sections s) (interactions s) (errors s)))
    as [r2 s2] eqn:Hwait.
  assert (Hs2 : ∃ w2,
            s2 = mkJs w2 (metadata s) (sections s) (interactions s) (errors s)
            ∧ (r2 = inr () → settles w1 w2)).
  { apply try_except_inv in Hwait as [(a & Hload & ->)|(e & s3 & Hload & Hfixed)].
    - apply call_inv in Hload as (w2 & Hload & ->). exists w2.
      split; [done|]. intros _. left. by destruct a.
    - apply call_inv in Hload as (w2 & Hload & ->).
      apply call_inv in Hfixed as (w3 & Hfixed & ->). exists w3.
      split; [done|]. intros ->. right. by exists e, w2. }
  destruct Hs2 as (w2 & -> & Hsettles).
  destruct r2 as [e|[]]; [by apply Hnone|].
  exact (Hafter w1 w2 Hclick (Hsettles eq_refl)).
Qed.

Lemma pagination_loop_visits (n : nat) (visited_urls : list string)
    (s : JsState) :
  NoDup visited_urls →
  ∃ new,
    (pagination_loop n visited_urls s).1 = inr (visited_urls ++ new)
    ∧ Interactions.pages (interactions (pagination_loop n visited_urls s).2)
      = Interactions.pages (interactions s) ++ new
    ∧ NoDup (visited_urls ++ new)
    ∧ length new ≤ n
    ∧ ∀ i u, new !! i = Some u → follows_link (visited_urls ++ take i new) u.
Proof.
  revert visited_urls s. induction n as [|n IH]; intros visited_urls s Hnd.
  - exists []. cbn. rewrite !app_nil_r. repeat split; try done.
  - cbn [pagination_loop].
    destruct (nr_find_next_link visited_urls PAGINATION_SELECTORS s)
      as [next Hnext].
    destruct (rw_find_next_link visited_urls PAGINATION_SELECTORS s)
      as (_ & _ & (lp & Hlp & Hlen) & _).
    destruct (find_next_link visited_urls PAGINATION_SELECTORS s)
      as [r s1] eqn:Hfind.
    cbn [fst snd] in Hnext, Hlp. subst r.
    assert (Hpages1 : Interactions.pages (interactions s1)
                      = Interactions.pages (interactions s)).
    { destruct lp; [by rewrite app_nil_r in Hlp|cbn in Hlen; lia]. }
    rewrite (bindM_inr _ _ _ _ _ Hfind).
    destruct next as [link|].
    + apply find_next_link_found in Hfind.
      destruct (follow_link_visits link visited_urls s1 Hnd)
        as (new1 & s2 & Hblock & Hpages2 & Hnd2 & Hnew1).
      rewrite (bindM_inr _ _ _ _ _ Hblock).
      destruct (IH (visited_urls ++ new1) s2 Hnd2)
        as (new2 & Hres & Hpages3 & Hnd3 & Hlen3 & Hfollow).
      exists (new1 ++ new2). rewrite Hres, Hpages3, Hpages2, Hpages1.
      rewrite <- !app_assoc. rewrite <- !app_assoc in Hnd3.
      split; [done|]. split; [done|]. split; [done|].
      destruct Hnew1 as [->|(w1 & w2 & Hclick & Hwait & -> & Hfresh)].
      * split; [cbn; lia|]. intros i u Hi. cbn [app] in *.
        specialize (Hfollow i u Hi). by rewrite app_nil_r in Hfollow.
      * split; [cbn; lia|]. intros [|i] u Hi; cbn in Hi.
        -- injection Hi as <-. cbn [take app]. rewrite app_nil_r.
           by exists link, (world s1), w1, w2.
        -- specialize (Hfollow i u Hi). cbn [take app].
           by rewrite <- app_assoc in Hfollow.
    + exists []. cbn. rewrite !app_nil_r. repeat split; try done. lia.
Qed.

(** [follow_pagination] always returns: the url the page had at its start
    followed by the locations it reached, all different and at most
    [max_pages - 1] of them; it appends exactly those locations to the
    pages log; and each of them is the url of the page after a click on a
    visible link that a pagination selector answered, whose href was not
    empty and not yet among the urls listed before it. *)
Theorem follow_pagination_visits (max_pages : nat) (s : JsState) :
  ∃ new,
    (follow_pagination max_pages s).1 = inr (page_url (world s) :: new)
    ∧ Interactions.pages (interactions (follow_pagination max_pages s).2)
      = Interactions.pages (interactions s) ++ new
    ∧ NoDup (page_url (world s) :: new)
    ∧ length new ≤ max_pages - 1
    ∧ ∀ i u, new !! i = Some u →
             follows_link (page_url (world s) :: take i new) u.
Proof.
  unfold follow_pagination.
  assert (Hurl : get_url s = (inr (page_url (world s)), s)) by done.
  rewrite (bindM_inr _ _ _ _ _ Hurl).
  destruct (pagination_loop_visits (max_pages - 1) [page_url (world s)] s)
    as (new & Hres & Hpages & Hnd & Hlen & Hfollow); [apply NoDup_singleton|].
  by exists new.
Qed.

End Pagination.

Lemma follow_pagination_visits_witness :
  let B := Canned.paged in
  let s := mkJs (B := B) 0 MetaData.default []
             (Interactions.mk [] 0 [Canned.paged_url 0]) [] in
  (follow_pagination 3 s).1
    = inr [Canned.paged_url 0; Canned.paged_url 1; Canned.paged_url 2]
  ∧ follows_link [Canned.paged_url 0] (Canned.paged_url 1)
  ∧ follows_link [Canned.paged_url 0; Canned.paged_url 1] (Canned.paged_url 2).
Proof.
  intros B s.
  destruct (follow_pagination_visits (B := B) 3 s)
    as (new & Hres & _ & _ & _ & Hfollow).
  assert (Hrun : (follow_pagination 3 s).1
                 = inr [Canned.paged_url 0; Canned.paged_url 1;
                        Canned.paged_url 2])
    by (vm_compute; reflexivity).
  split; [exact Hrun|].
  rewrite Hrun in Hres. injection Hres as <-.
  split; [exact (Hfollow 0 _ eq_refl)|exact (Hfollow 1 _ eq_refl)].
Defined.

(** ** Images *)

(** Every image of an extracted content comes from an element matched by
    [img[src]] whose src attribute is not empty; its src is that attribute
    made absolute, and its alt is the alt attribute, or the empty string
    when the attribute is missing or has no value. *)
Theorem image_src_resolved `{D : Dom} (element : Node) (base_url : string)
    (i : ImageItem.t) :
  i ∈ SectionContent.images (extract_section_content element base_url) →
  ∃ img src,
    img ∈ css element "img[src]"
    ∧ attributes img !! "src" = Some (Some src)
    ∧ src ≠ ""
    ∧ ImageItem.src i = make_absolute_url src base_url
    ∧ ImageItem.alt i =
        (match attributes img !! "alt" with
         | Some (Some alt) => alt
         | _ => ""
         end).
Proof.
  unfold extract_section_content. cbn [SectionContent.images]. intros Hi.
  apply elem_of_take_elem in Hi.
  apply list_elem_of_omap in Hi as (img & Himg & Hof).
  unfold image_of, Py.get in Hof.
  destruct (attributes img !! "src") as [[src|]|] eqn:Hsrc;
    cbn [Py.truthy_opt Py.or_empty Py.truthy] in Hof; try done.
  destruct (Py.truthy src) eqn:Ht; [|done]. injection Hof as <-.
  exists img, src. cbn [ImageItem.src ImageItem.alt].
  repeat split; try done; [by apply truthy_true|].
  by destruct (attributes img !! "alt") as [[alt|]|].
Qed.

Lemma image_src_resolved_witness :
  let D := Canned.site in
  let img := Canned.leaf "img" [("src", Some "/logo.png")] "" "<img src='/logo.png'>" in
  let element :=
    Canned.Node_ (Some "header") [] "" (Some "<header></header>")
      [("img[src]", [img])] in
  let i := ImageItem.mk "https://example.com/logo.png" "" in
  i ∈ SectionContent.images (extract_section_content element "https://example.com")
  ∧ ∃ img' src,
      img' ∈ css element "img[src]"
      ∧ attributes img' !! "src" = Some (Some src)
      ∧ src ≠ ""
      ∧ ImageItem.src i = make_absolute_url src "https://example.com"
      ∧ ImageItem.alt i =
          (match attributes img' !! "alt" with
           | Some (Some alt) => alt
           | _ => ""
           end).
Proof.
  intros D img element i.
  assert (Hi : i ∈ SectionContent.images
                 (extract_section_content (D := D) element "https://example.com")).
  { vm_compute. apply list_elem_of_here. }
  split; [exact Hi|].
  exact (image_src_resolved (D := D) element "https://example.com" i Hi).
Defined.

(** ** Outcomes of the static pass *)

(** [static_scrape] records no error exactly when the fetch and the parse
    succeed, and one error otherwise; the text it returns is the response
    text whenever the fetch succeeded, also when the parse failed, and
    empty otherwise; and whenever it returns no section it asks for
    rendering, so the request escalates exactly when [needs_js] is set. *)
Theorem static_scrape_outcomes `{D : Dom} `{H : Http} (url : string) :
  let r := static_scrape url in
  (static_errors r = [] ↔
   ∃ html parsed, client_get 30 true USER_AGENT url = Response html
                  ∧ static_parse html url = inr parsed)
  ∧ length (static_errors r) ≤ 1
  ∧ r.1.2 = (match client_get 30 true USER_AGENT url with
             | Response html => html
             | _ => ""
             end)
  ∧ static_needs_js r || bool_decide (static_sections r = []) = static_needs_js r.
Proof.
  cbv zeta. unfold static_scrape, static_errors, static_needs_js, static_sections.
  destruct (client_get 30 true USER_AGENT url) as [html| |code|msg]; cbn;
    try (split; [split; [done|by intros (? & ? & ? & _)]|];
         split; [lia|done]).
  destruct (static_parse html url) as [msg|[[m secs] needs]] eqn:Hparse; cbn.
  - split; [split; [done|]|split; [lia|done]].
    intros (html' & parsed & [= <-] & Hok). congruence.
  - split; [split; [intros _; by eexists _, _|done]|]. split; [lia|].
    split; [done|].
    unfold static_parse in Hparse.
    destruct (HTMLParser html) as [e|tree]; [done|]. cbn [ebind] in Hparse.
    destruct (extract_sections (remove_noise tree) url) as [e|secs'];
      [done|]. cbn [ebind ok] in Hparse. injection Hparse as _ -> <-.
    destruct (bool_decide (secs = [])); cbn [orb]; [done|].
    by rewrite orb_false_r.
Qed.
